(** * AI_Media_Agent backend (main.py): a shallow embedding and its properties

    The backend is a Flask application over one SQLite table.  The embedding
    follows main.py function by function:

    - [Py]     : the Python values and primitives the handlers rely on
                 (JSON values, dict access, [str.lower], [in], [json.dumps]);
    - [Sqlite] : the [documents] table with the two statements the program
                 runs on it (the INSERT of [add_document], the SELECT of
                 [query_documents]), including AUTOINCREMENT, column
                 affinity, LIKE, ORDER BY ... DESC and LIMIT;
    - [App]    : [add_document], [query_documents], [AIAgent], and the
                 handlers [api_record], [api_import] and [chat].

    Text is kept as UTF-8 byte strings; a lone surrogate, which a Python
    [str] can hold and UTF-8 cannot, is kept as the three bytes that start
    with 0xED and a byte of 0xA0 or more.  For well-formed UTF-8 a
    byte-level substring test agrees with Python's code-point-level [in]. *)

From Stdlib Require Import String Ascii List ZArith NArith Bool Lia.
From Stdlib Require Import DecimalString Sorted Permutation.
Import ListNotations.

Local Open Scope string_scope.
Local Open Scope Z_scope.

(* ================================================================== *)
(** * Python values and primitives *)
(* ================================================================== *)

Module Py.

(** A value produced by a JSON parser ([request.get_json], [response.json],
    [json.loads]): [None], [bool], [int], [str], [list], [dict].  A [dict] is
    kept as the list of its items in insertion order.  Floating-point
    numbers are outside the model. *)
#[warnings="-register-all"]
Inductive json : Type :=
| JNull
| JBool (b : bool)
| JNum (n : Z)
| JStr (s : string)
| JArr (items : list json)
| JObj (fields : list (string * json)).

(** [bool(v)]. *)
Definition truthy (v : json) : bool :=
  match v with
  | JNull => false
  | JBool b => b
  | JNum n => negb (n =? 0)
  | JStr s => negb (s =? "")%string
  | JArr items => match items with [] => false | _ => true end
  | JObj fields => match fields with [] => false | _ => true end
  end.

(** [x or None]. *)
Definition or_none (v : json) : json := if truthy v then v else JNull.

Definition is_dict (v : json) : bool :=
  match v with JObj _ => true | _ => false end.

Definition is_list (v : json) : bool :=
  match v with JArr _ => true | _ => false end.

(** ** Dictionaries, generic in the key type *)

Section Dict.
Context {K V : Type} (eqb : K -> K -> bool).

(** [d[k]], [None] standing for [KeyError]. *)
Fixpoint lookup (k : K) (d : list (K * V)) : option V :=
  match d with
  | [] => None
  | (k', v) :: rest => if eqb k k' then Some v else lookup k rest
  end.

(** [k in d]. *)
Definition has_key (k : K) (d : list (K * V)) : bool :=
  match lookup k d with Some _ => true | None => false end.

(** [d[k] = v]: an existing key keeps its position, a new key goes last. *)
Fixpoint dict_set (k : K) (v : V) (d : list (K * V)) : list (K * V) :=
  match d with
  | [] => [(k, v)]
  | (k', v') :: rest =>
      if eqb k k' then (k', v) :: rest else (k', v') :: dict_set k v rest
  end.

(** [dict(pairs)]. *)
Definition dict_of (pairs : list (K * V)) : list (K * V) :=
  fold_left (fun d kv => dict_set (fst kv) (snd kv) d) pairs [].

(** [{k: v for (k, v) in d.items() if k not in reserved}]. *)
Definition without_keys (reserved : list K) (d : list (K * V))
  : list (K * V) :=
  filter (fun kv => negb (existsb (eqb (fst kv)) reserved)) d.
End Dict.

(** [d.get(k)] and [d.get(k, default)] on a JSON object. *)
Definition get (k : string) (d : list (string * json)) : json :=
  match lookup String.eqb k d with Some v => v | None => JNull end.

Definition get_default (k : string) (default : json)
  (d : list (string * json)) : json :=
  match lookup String.eqb k d with Some v => v | None => default end.

(** ** Strings *)

(** [needle in hay] for two [str]. *)
Fixpoint contains (needle hay : string) : bool :=
  String.prefix needle hay
  || match hay with
     | EmptyString => false
     | String _ rest => contains needle rest
     end.

(** What [contains] decides. *)
Definition Substring (needle hay : string) : Prop :=
  exists pre post, hay = (pre ++ needle ++ post)%string.

Definition lower_ascii (c : ascii) : ascii :=
  let n := N_of_ascii c in
  if ((65 <=? n) && (n <=? 90))%N then ascii_of_N (n + 32) else c.

(** [s.lower()].  Only the ASCII letters are mapped; the case mapping of
    other scripts is not modelled (the keywords the program looks for have
    no cased letter, and no case mapping yields one of their characters). *)
Fixpoint lower (s : string) : string :=
  match s with
  | EmptyString => EmptyString
  | String c rest => String (lower_ascii c) (lower rest)
  end.

Fixpoint join (sep : string) (parts : list string) : string :=
  match parts with
  | [] => ""
  | [p] => p
  | p :: rest => p ++ sep ++ join sep rest
  end.

(** [str(n)] for an [int]. *)
Definition str_of_int (n : Z) : string :=
  NilZero.string_of_int (Z.to_int n).

(** ** Characters of a UTF-8 text *)

Definition is_continuation (c : ascii) : bool :=
  let n := N_of_ascii c in ((128 <=? n) && (n <? 192))%N.

Definition is_lead (c : ascii) : bool := (192 <=? N_of_ascii c)%N.

Fixpoint singletons (s : string) : list string :=
  match s with
  | EmptyString => []
  | String c rest => String c "" :: singletons rest
  end.

(** The continuation bytes [s] starts with, and the characters after them. *)
Fixpoint utf8_split (s : string) : string * list string :=
  match s with
  | EmptyString => ("", [])
  | String c rest =>
      let (k, chars) := utf8_split rest in
      if is_continuation c then (String c k, chars)
      else if is_lead c then ("", String c k :: chars)
      else ("", String c "" :: singletons k ++ chars)
  end.

(** The characters of a text: one byte, and, when that byte is 0xC0 or
    more, the continuation bytes that follow it.  On well-formed UTF-8 these
    are the code points Python's [str] and [re] work on; SQLite steps
    through a text in the same way. *)
Definition utf8_chars (s : string) : list string :=
  let (k, chars) := utf8_split s in singletons k ++ chars.

(** A lone surrogate, U+D800..U+DFFF, which a [str] can hold (the JSON
    escape of one yields it) and UTF-8 cannot: as a character of the text
    it is the byte 0xED followed by a byte of 0xA0 or more. *)
Definition is_surrogate (ch : string) : bool :=
  match ch with
  | String a (String b _) =>
      ((N_of_ascii a =? 237) && (160 <=? N_of_ascii b))%N
  | _ => false
  end.

(** [s.encode("utf-8")] does not raise: the text holds no lone surrogate. *)
Definition encodable (s : string) : bool :=
  forallb (fun ch => negb (is_surrogate ch)) (utf8_chars s).

(** ** [json.dumps(v, ensure_ascii=False)] *)

Definition dquote : string := String "034"%char EmptyString.

Definition hex_digit (n : N) : ascii :=
  if (n <? 10)%N then ascii_of_N (48 + n) else ascii_of_N (87 + n).

(** One character of a JSON string literal: the quote, the backslash and the
    control characters are escaped, everything else is copied. *)
Definition escape_char (c : ascii) : string :=
  let n := N_of_ascii c in
  if (n =? 34)%N then "\" ++ dquote
  else if (n =? 92)%N then "\\"
  else if (n =? 10)%N then "\n"
  else if (n =? 13)%N then "\r"
  else if (n =? 9)%N then "\t"
  else if (n =? 8)%N then "\b"
  else if (n =? 12)%N then "\f"
  else if (n <? 32)%N then
    "\u00" ++ String (hex_digit (n / 16)) (String (hex_digit (n mod 16)) "")
  else String c "".

Fixpoint escape (s : string) : string :=
  match s with
  | EmptyString => ""
  | String c rest => escape_char c ++ escape rest
  end.

Definition quote (s : string) : string := dquote ++ escape s ++ dquote.

Fixpoint json_dumps (v : json) : string :=
  match v with
  | JNull => "null"
  | JBool true => "true"
  | JBool false => "false"
  | JNum n => str_of_int n
  | JStr s => quote s
  | JArr items => "[" ++ join ", " (map json_dumps items) ++ "]"
  | JObj fields =>
      "{" ++ join ", "
               (map (fun kv => quote (fst kv) ++ ": " ++ json_dumps (snd kv))
                    fields)
          ++ "}"
  end.

(** [json.dumps(v, ensure_ascii=False, indent=2)], at nesting depth [depth]. *)
Definition newline : string := String "010"%char EmptyString.

Fixpoint spaces (n : nat) : string :=
  match n with O => "" | S n' => String " "%char (spaces n') end.

Definition newline_indent (depth : nat) : string :=
  newline ++ spaces (2 * depth).

Fixpoint json_dumps_indent (depth : nat) (v : json) : string :=
  match v with
  | JArr [] => "[]"
  | JArr items =>
      "[" ++ newline_indent (S depth)
          ++ join ("," ++ newline_indent (S depth))
                  (map (json_dumps_indent (S depth)) items)
          ++ newline_indent depth ++ "]"
  | JObj [] => "{}"
  | JObj fields =>
      "{" ++ newline_indent (S depth)
          ++ join ("," ++ newline_indent (S depth))
                  (map (fun kv => quote (fst kv) ++ ": "
                                  ++ json_dumps_indent (S depth) (snd kv))
                       fields)
          ++ newline_indent depth ++ "}"
  | scalar => json_dumps scalar
  end.

End Py.

(* ================================================================== *)
(** * The SQLite table *)
(* ================================================================== *)

Module Sqlite.
Import Py.

(** A value bound to a [?] of a statement. *)
Inductive value : Type :=
| Null
| Integer (n : Z)
| Text (s : string).

(** The parameter adapter of Python's [sqlite3]: [None], [int] (and [bool],
    an [int]) and [str] are bound; an [int] outside 64 bits, a [str] that
    cannot be encoded as UTF-8, or any other object makes [execute]
    raise. *)
Definition min_int64 : Z := - 9223372036854775808.
Definition max_int64 : Z := 9223372036854775807.

Definition bind_param (v : json) : option value :=
  match v with
  | JNull => Some Null
  | JBool b => Some (Integer (if b then 1 else 0))
  | JNum n =>
      if (min_int64 <=? n) && (n <=? max_int64) then Some (Integer n)
      else None
  | JStr s => if encodable s then Some (Text s) else None
  | JArr _ | JObj _ => None
  end.

(** What a column declared TEXT stores for a bound value. *)
Definition text_affinity (v : value) : option string :=
  match v with
  | Null => None
  | Integer n => Some (str_of_int n)
  | Text s => Some s
  end.

(** A row of
    [documents(id INTEGER PRIMARY KEY AUTOINCREMENT, doc_type TEXT,
               identifier TEXT, data TEXT NOT NULL,
               created_time TIMESTAMP DEFAULT CURRENT_TIMESTAMP)].
    [created_time] holds the text 'YYYY-MM-DD HH:MM:SS' that
    CURRENT_TIMESTAMP gave at the insert. *)
Record row : Type := mk_row {
  id : Z;
  doc_type : option string;
  identifier : option string;
  data : string;
  created_time : string
}.

(** The table in rowid order, and the [seq] that AUTOINCREMENT keeps for it
    in [sqlite_sequence]. *)
Record database : Type := mk_database {
  documents : list row;
  sqlite_sequence : Z
}.

(** [init_database] (lines 18-32): CREATE TABLE IF NOT EXISTS keeps the table
    of an existing file and creates an empty one otherwise. *)
Definition init_database (file : option database) : database :=
  match file with
  | Some db => db
  | None => mk_database [] 0
  end.

(** The table of a fresh file. *)
Definition empty : database := init_database None.

Definition largest_rowid (rows : list row) : Z :=
  fold_right (fun r m => Z.max (id r) m) 0 rows.

(** [INSERT INTO documents(doc_type, identifier, data) VALUES (?,?,?)] at
    clock reading [now].  AUTOINCREMENT takes one more than the largest
    rowid the table ever held and refuses (SQLITE_FULL) once the largest
    possible rowid was used.  The result is [lastrowid] and the new table. *)
Definition insert (now : string) (dt idn : value) (payload : string)
  (db : database) : option (Z * database) :=
  let last := Z.max (sqlite_sequence db) (largest_rowid (documents db)) in
  if last <? max_int64 then
    let new_id := last + 1 in
    Some (new_id,
          mk_database
            (documents db
               ++ [mk_row new_id (text_affinity dt) (text_affinity idn)
                          payload now])
            new_id)
  else None.

(** ** LIKE *)

(** Two characters are equal for LIKE when they are the same, or when both
    are ASCII and equal up to case. *)
Definition like_char (p c : string) : bool :=
  (p =? c)%string
  || match p, c with
     | String a EmptyString, String b EmptyString =>
         (N_of_ascii a <? 128)%N && (N_of_ascii b <? 128)%N
         && Ascii.eqb (lower_ascii a) (lower_ascii b)
     | _, _ => false
     end.

(** [text LIKE pattern] on characters: [%] stands for any run of characters,
    [_] for any one character; there is no escape character. *)
Fixpoint like_chars (pattern : list string) : list string -> bool :=
  match pattern with
  | [] => fun text => match text with [] => true | _ => false end
  | p :: pattern' =>
      if (p =? "%")%string then
        fix any_run (text : list string) : bool :=
          like_chars pattern' text
          || match text with
             | [] => false
             | _ :: text' => any_run text'
             end
      else if (p =? "_")%string then
        fun text =>
          match text with
          | [] => false
          | _ :: text' => like_chars pattern' text'
          end
      else
        fun text =>
          match text with
          | [] => false
          | c :: text' => like_char p c && like_chars pattern' text'
          end
  end.

(** A text as the LIKE function reads it, a C string: what comes before
    the first NUL byte. *)
Fixpoint c_text (s : string) : string :=
  match s with
  | EmptyString => ""
  | String c rest =>
      if (N_of_ascii c =? 0)%N then "" else String c (c_text rest)
  end.

Definition like (text pattern : string) : bool :=
  like_chars (utf8_chars (c_text pattern)) (utf8_chars (c_text text)).

(** ** SELECT *)

(** [a] sorts strictly before [b] under ORDER BY created_time DESC: the
    texts are compared byte by byte. *)
Definition newer (a b : row) : bool :=
  String.ltb (created_time b) (created_time a).

Fixpoint insert_sorted (r : row) (sorted : list row) : list row :=
  match sorted with
  | [] => [r]
  | x :: rest =>
      if newer x r then x :: insert_sorted r rest else r :: x :: rest
  end.

(** ORDER BY created_time DESC over the scanned rows.  SQL leaves the order
    of rows with equal [created_time] open; here they stay in scan order
    (rowid order), as with a sort key completed by a sequence number. *)
Definition order_by_created_time_desc (rows : list row) : list row :=
  fold_right insert_sorted [] rows.

(** LIMIT: a negative limit means no limit. *)
Definition limit_rows (limit : Z) (rows : list row) : list row :=
  if limit <? 0 then rows else firstn (Z.to_nat limit) rows.

(** The WHERE clause [1=1 [AND doc_type = ?] [AND data LIKE ?]]; a NULL
    [doc_type] is equal to nothing. *)
Definition where_clause (type_param like_param : option string) (r : row)
  : bool :=
  match type_param with
  | None => true
  | Some t =>
      match doc_type r with
      | Some t' => (t' =? t)%string
      | None => false
      end
  end
  && match like_param with
     | None => true
     | Some pattern => like (data r) pattern
     end.

(** [SELECT id, doc_type, identifier, data, created_time FROM documents
     WHERE ... ORDER BY created_time DESC LIMIT ?]. *)
Definition select (type_param like_param : option string) (limit : Z)
  (db : database) : list row :=
  limit_rows limit
    (order_by_created_time_desc
       (filter (where_clause type_param like_param) (documents db))).

End Sqlite.

(* ================================================================== *)
(** * main.py *)
(* ================================================================== *)

Module App.
Import Py Sqlite.

(** What a Python call gives: a value, or an exception with its [str(e)]. *)
Inductive outcome (A : Type) : Type :=
| Return (a : A)
| Raise (message : string).
Arguments Return {A} a.
Arguments Raise {A} message.

Definition bind {A B : Type} (m : outcome A) (k : A -> outcome B)
  : outcome B :=
  match m with
  | Return a => k a
  | Raise e => Raise e
  end.

Notation "x <- m ;; k" := (bind m (fun x => k))
  (at level 61, m at next level, right associativity).

(** [type(v).__name__]. *)
Definition type_name (v : json) : string :=
  match v with
  | JNull => "NoneType"
  | JBool _ => "bool"
  | JNum _ => "int"
  | JStr _ => "str"
  | JArr _ => "list"
  | JObj _ => "dict"
  end.

(** [str(e)] for the [AttributeError] of [v.attr] on a value without that
    attribute. *)
Definition no_attribute (v : json) (attr : string) : string :=
  "'" ++ type_name v ++ "' object has no attribute '" ++ attr ++ "'".

(** What the handlers hand to Flask: [jsonify(body)] with a status (200
    unless stated), or an exception that leaves the handler, which Flask
    answers with status 500. *)
Inductive response : Type :=
| Response (status : Z) (body : json)
| Unhandled (message : string).

Definition status_code (r : response) : Z :=
  match r with
  | Response status _ => status
  | Unhandled _ => 500
  end.

(** ** The environment of one write *)

(** [now] is what CURRENT_TIMESTAMP reads when the INSERT runs;
    [storage_ok] is false when the write raises for a reason that is not
    derived here from the values it is given: a locked or unwritable file,
    a full disk, a text beyond SQLite's length limit, no memory. *)
Record event : Type := mk_event {
  now : string;
  storage_ok : bool
}.

(** ** add_document (lines 67-83) *)

Definition add_document (e : event) (doc_type identifier data_dict : json)
  (db : database) : (bool * option Z) * database :=
  if storage_ok e then
    let json_text := json_dumps data_dict in
    match bind_param doc_type, bind_param identifier,
          bind_param (JStr json_text) with
    | Some dt, Some idn, Some (Text payload) =>
        match insert (now e) dt idn payload db with
        | Some (new_id, db') => ((true, Some new_id), db')
        | None => ((false, None), db)
        end
    | _, _, _ => ((false, None), db)
    end
  else ((false, None), db).

(** ** query_documents (lines 85-122) *)

(** One dict of the result list. *)
Record document : Type := mk_document {
  doc_id : Z;
  doc_doc_type : option string;
  doc_identifier : option string;
  doc_data : json;
  doc_created_time : string
}.

Definition json_of_option (o : option string) : json :=
  match o with Some s => JStr s | None => JNull end.

Definition document_json (d : document) : json :=
  JObj [("id", JNum (doc_id d));
        ("doc_type", json_of_option (doc_doc_type d));
        ("identifier", json_of_option (doc_identifier d));
        ("data", doc_data d);
        ("created_time", JStr (doc_created_time d))].

(** [if x:] for an argument that is [None] or a [str]. *)
Definition given (x : option string) : option string :=
  match x with
  | Some s => if (s =? "")%string then None else Some s
  | None => None
  end.

Section Decoder.

(** [json.loads], [None] standing for the exception it raises on a text
    that is not JSON. *)
Variable json_loads : string -> option json.

(** The body of the result loop (lines 109-121). *)
Definition build_document (r : row) : document :=
  let data_obj :=
    match json_loads (data r) with
    | Some v => v
    | None => JStr (data r)
    end in
  mk_document (id r) (Sqlite.doc_type r) (Sqlite.identifier r) data_obj
              (created_time r).

(** [search_text] and [doc_type] are [None] or a [str], [limit] is an
    [int].  This is the result of a call whose statement SQLite runs, as it
    does for every call the program makes: [limit] fits 64 bits (binding a
    larger one raises OverflowError), the texts can be encoded, the LIKE
    pattern has at most 50000 bytes, and the database file can be read.
    For other arguments the call raises, and this value is not the result
    of any call. *)
Definition query_documents (search_text doc_type : option string)
  (limit : Z) (db : database) : list document :=
  let type_param := given doc_type in
  let like_param :=
    match given search_text with
    | Some s => Some ("%" ++ s ++ "%")
    | None => None
    end in
  let rows := select type_param like_param limit db in
  map build_document rows.

End Decoder.

(** ** AIAgent (lines 127-159) *)

Definition query_keywords : list string := ["查询"; "查找"; "搜索"; "有哪些"].
Definition store_keywords : list string := ["记录"; "添加"; "保存"].

Definition analyze (text : string) : string :=
  let text_lower := lower text in
  if existsb (fun k => contains k text_lower) query_keywords then "query"
  else if existsb (fun k => contains k text_lower) store_keywords then "store"
  else "query".

(** The code point of a three-byte character. *)
Definition code_point3 (c : string) : option N :=
  match c with
  | String b0 (String b1 (String b2 EmptyString)) =>
      let n0 := N_of_ascii b0 in
      if ((224 <=? n0) && (n0 <? 240))%N then
        Some ((n0 - 224) * 4096 + (N_of_ascii b1 - 128) * 64
              + (N_of_ascii b2 - 128))%N
      else None
  | _ => None
  end.

(** [[张李王刘陈杨黄周吴赵]]. *)
Definition surnames : list string :=
  ["张"; "李"; "王"; "刘"; "陈"; "杨"; "黄"; "周"; "吴"; "赵"].

Definition is_surname (c : string) : bool :=
  existsb (String.eqb c) surnames.

(** [[一-龥]]. *)
Definition is_han (c : string) : bool :=
  match code_point3 c with
  | Some n => ((19968 <=? n) && (n <=? 40869))%N
  | None => false
  end.

(** The leftmost match of [[surname]{1}[han]{1,2}] in the characters. *)
Fixpoint first_name (chars : list string) : option string :=
  match chars with
  | [] => None
  | c :: rest =>
      match rest with
      | c1 :: rest1 =>
          if is_surname c && is_han c1 then
            match rest1 with
            | c2 :: _ =>
                if is_han c2 then Some (c ++ c1 ++ c2) else Some (c ++ c1)
            | [] => Some (c ++ c1)
            end
          else first_name rest
      | [] => None
      end
  end.

Definition extract_name (text : string) : option string :=
  first_name (utf8_chars text).

Definition service_error_prefix : string := "AI 服务错误：".
Definition parse_failure : string := "AI 响应解析失败".

(** [v[key]] for a [str] key, and [v[0]]. *)
Definition item (key : string) (v : json) : outcome json :=
  match v with
  | JObj fields =>
      match lookup String.eqb key fields with
      | Some x => Return x
      | None => Raise ("'" ++ key ++ "'")
      end
  | JArr _ => Raise "list indices must be integers or slices, not str"
  | JStr _ => Raise "string indices must be integers"
  | other => Raise ("'" ++ type_name other ++ "' object is not subscriptable")
  end.

Definition item0 (v : json) : outcome json :=
  match v with
  | JArr (x :: _) => Return x
  | JArr [] => Raise "list index out of range"
  | JStr s =>
      match utf8_chars s with
      | c :: _ => Return (JStr c)
      | [] => Raise "string index out of range"
      end
  | JObj _ => Raise "0"
  | other => Raise ("'" ++ type_name other ++ "' object is not subscriptable")
  end.

(** ["error" in res]. *)
Definition error_in (res : json) : outcome bool :=
  match res with
  | JObj fields => Return (has_key String.eqb "error" fields)
  | JArr items =>
      Return (existsb (fun x => match x with
                                | JStr s => (s =? "error")%string
                                | _ => false
                                end) items)
  | JStr s => Return (contains "error" s)
  | other =>
      Raise ("argument of type '" ++ type_name other ++ "' is not iterable")
  end.

(** [prefix + v]. *)
Definition concat_str (prefix : string) (v : json) : outcome json :=
  match v with
  | JStr s => Return (JStr (prefix ++ s))
  | other => Raise ("can only concatenate str (not " ++ dquote
                    ++ type_name other ++ dquote ++ ") to str")
  end.

Definition system_prompt_of (db_results : json) (context : string) : string :=
  newline ++ "你是一个信息系统 AI。以下是数据库返回的数据：" ++ newline
  ++ newline ++ json_dumps_indent 0 db_results ++ newline
  ++ newline ++ "用户意图：" ++ context ++ newline
  ++ newline ++ "请生成自然、简洁、专业的回复。" ++ newline.

(** [res["choices"][0]["message"]["content"]]. *)
Definition first_content (res : json) : outcome json :=
  choices <- item "choices" res ;;
  first <- item0 choices ;;
  message <- item "message" first ;;
  item "content" message.

Section Completion.

(** The HTTP exchange of [DeepSeekAPI.chat_completion]: the JSON body of the
    answer, or the exception that [requests.post], [raise_for_status] or
    [response.json] raised. *)
Variable post : string -> string -> outcome json.

Definition chat_completion (system_prompt user_message : string) : json :=
  match post system_prompt user_message with
  | Return answer => answer
  | Raise e => JObj [("error", JStr e)]
  end.

Definition reply (user_input : string) (db_results : json)
  (context : string) : outcome json :=
  let res := chat_completion (system_prompt_of db_results context)
                             user_input in
  has_error <- error_in res ;;
  if has_error : bool then
    err <- item "error" res ;;
    concat_str service_error_prefix err
  else
    match first_content res with
    | Return content => Return content
    | Raise _ => Return (JStr parse_failure)
    end.

End Completion.

(** ** /api/record (lines 173-191) *)

(** [body] is [request.json], [time_iso] what
    [datetime.datetime.now().isoformat()] gives. *)
Definition api_record (body : json) (time_iso : string) (e : event)
  (db : database) : response * database :=
  match body with
  | JObj data =>
      let student_name := get "student_name" data in
      let record_type := get_default "record_type" (JStr "record") data in
      let content := get "content" data in
      let record :=
        JObj [("student_name", student_name);
              ("record_type", record_type);
              ("content", content);
              ("time", JStr time_iso)] in
      let '((ok, _), db') :=
        add_document e (JStr "record") student_name record db in
      if ok then
        (Response 200 (JObj [("status", JStr "success");
                             ("message", JStr "记录已添加")]), db')
      else
        (Response 200 (JObj [("status", JStr "error");
                             ("message", JStr "添加失败")]), db')
  | other => (Unhandled (no_attribute other "get"), db)
  end.

(** ** /api/import (lines 196-286) *)

(** A row of [csv.DictReader]: the keys are field names, or [None] for the
    fields a record has beyond the header. *)
Definition csv_row : Type := list (option string * json).

Definition key_eqb (a b : option string) : bool :=
  match a, b with
  | Some x, Some y => (x =? y)%string
  | None, None => true
  | _, _ => false
  end.

(** [dict(zip(fieldnames, record))], then the rest of the record under
    [None], or [None] for the fields the record lacks. *)
Definition dict_reader_row (fieldnames record : list string) : csv_row :=
  let d := dict_of key_eqb
             (combine (map Some fieldnames) (map JStr record)) in
  let lf := length fieldnames in
  let lr := length record in
  if (lf <? lr)%nat then
    dict_set key_eqb None (JArr (map JStr (skipn lf record))) d
  else
    fold_left (fun d key => dict_set key_eqb (Some key) JNull d)
              (skipn lr fieldnames) d.

Definition is_blank (record : list string) : bool :=
  match record with [] => true | _ => false end.

(** What [csv.reader] gives, one entry for each call of [next]: a record,
    or the [csv.Error] it raises for a record it refuses (a field over the
    size limit, a line break inside an unquoted field).  The reader is
    read while the loop runs, record by record. *)
Definition csv_stream : Type := list (outcome (list string)).

(** One step of [csv.DictReader] after the header: a row of the next
    record that is not blank, or the error of the reader. *)
Definition dict_reader_step (fieldnames : list string)
  (step : outcome (list string)) : list (outcome csv_row) :=
  match step with
  | Return record =>
      if is_blank record then []
      else [Return (dict_reader_row fieldnames record)]
  | Raise e => [Raise e]
  end.

(** [csv.DictReader] over [csv.reader]: the first record gives the field
    names, blank records after it are skipped. *)
Definition dict_reader (stream : csv_stream) : list (outcome csv_row) :=
  match stream with
  | [] => []
  | Raise e :: _ => [Raise e]
  | Return fieldnames :: rest => flat_map (dict_reader_step fieldnames) rest
  end.

(** The key of a dict as [json.dumps] and [jsonify] write it. *)
Definition key_text (k : option string) : string :=
  match k with Some s => s | None => "null" end.

Definition json_of_csv (row : csv_row) : json :=
  JObj (map (fun kv => (key_text (fst kv), snd kv)) row).

(** [jsonify] sorts the keys of every dict, which Python cannot do for a
    dict that has [None] next to [str] keys. *)
Definition sortable (row : csv_row) : bool :=
  negb (has_key key_eqb None row
        && existsb (fun kv => match fst kv with
                              | Some _ => true
                              | None => false
                              end) row).

(** The request as the handler reads it.  [get_json] is the parsed body, or
    the [BadRequest] Flask raises for a body that is not JSON.  A file is
    given by what [csv.reader] yields for [file.read().decode("utf-8")], or
    the [UnicodeDecodeError] of a file that is not UTF-8. *)
Record request : Type := mk_request {
  is_json : bool;
  get_json : outcome json;
  files : list (string * outcome csv_stream)
}.

(** The accumulators of the two loops: [succ], [fail], [results]. *)
Record tally : Type := mk_tally {
  succ : Z;
  fail : Z;
  results : list json
}.

Definition reserved_keys : list string := ["doc_type"; "identifier"].

(** Lines 222-227. *)
Definition data_dict_of (it : list (string * json)) : json :=
  if has_key String.eqb "data" it && is_dict (get "data" it) then
    get "data" it
  else
    JObj (without_keys String.eqb reserved_keys it).

(** One turn of the loop of lines 217-235 on a dict. *)
Definition import_item (e : event) (it : list (string * json))
  (acc : tally) (db : database) : tally * database :=
  let doc_type := get "doc_type" it in
  let identifier := get "identifier" it in
  let data_dict := data_dict_of it in
  match add_document e doc_type identifier data_dict db with
  | ((true, new_id), db') =>
      (mk_tally (succ acc + 1) (fail acc)
         (results acc
            ++ [JObj [("item", JObj it); ("status", JStr "ok");
                      ("id", match new_id with
                             | Some n => JNum n
                             | None => JNull
                             end)]]),
       db')
  | ((false, _), db') =>
      (mk_tally (succ acc) (fail acc + 1)
         (results acc ++ [JObj [("item", JObj it); ("status", JStr "fail")]]),
       db')
  end.

(** The loop of lines 217-235; [env i] is the environment of the insert of
    item number [i].  An item that is not a dict has no [get]: the
    exception ends the loop, what was inserted stays. *)
Fixpoint import_items (env : nat -> event) (i : nat) (items : list json)
  (acc : tally) (db : database) : outcome tally * database :=
  match items with
  | [] => (Return acc, db)
  | JObj it :: rest =>
      let (acc', db') := import_item (env i) it acc db in
      import_items env (S i) rest acc' db'
  | other :: _ => (Raise (no_attribute other "get"), db)
  end.

(** One turn of the loop of lines 255-270. *)
Definition import_row (e : event) (row : csv_row) (acc : tally)
  (db : database) : tally * database :=
  let doc_type := or_none (match lookup key_eqb (Some "doc_type") row with
                           | Some v => v
                           | None => JNull
                           end) in
  let identifier := or_none (match lookup key_eqb (Some "identifier") row with
                             | Some v => v
                             | None => JNull
                             end) in
  let data_dict :=
    without_keys key_eqb [Some "doc_type"; Some "identifier"] row in
  match add_document e doc_type identifier (json_of_csv data_dict) db with
  | ((true, new_id), db') =>
      (mk_tally (succ acc + 1) (fail acc)
         (results acc
            ++ [JObj [("row", json_of_csv row); ("status", JStr "ok");
                      ("id", match new_id with
                             | Some n => JNum n
                             | None => JNull
                             end)]]),
       db')
  | ((false, _), db') =>
      (mk_tally (succ acc) (fail acc + 1)
         (results acc
            ++ [JObj [("row", json_of_csv row); ("status", JStr "fail")]]),
       db')
  end.

(** The loop of lines 255-270.  When the reader raises, the exception ends
    the loop; what was inserted stays. *)
Fixpoint import_rows (env : nat -> event) (i : nat)
  (rows : list (outcome csv_row)) (acc : tally) (db : database)
  : outcome tally * database :=
  match rows with
  | [] => (Return acc, db)
  | Return row :: rest =>
      let (acc', db') := import_row (env i) row acc db in
      import_rows env (S i) rest acc' db'
  | Raise e :: _ => (Raise e, db)
  end.

(** The rows among the steps of the reader. *)
Definition rows_of (steps : list (outcome csv_row)) : list csv_row :=
  flat_map (fun step => match step with
                        | Return row => [row]
                        | Raise _ => []
                        end) steps.

Definition summary_response (t : tally) : response :=
  Response 200
    (JObj [("status", JStr "success");
           ("summary", JObj [("success", JNum (succ t));
                             ("fail", JNum (fail t))]);
           ("details", JArr (results t))]).

Definition error_response (status : Z) (message : string) : response :=
  Response status (JObj [("status", JStr "error");
                         ("message", JStr message)]).

Definition not_an_array : string := "JSON 必须是数组".
Definition nothing_to_import : string := "请上传 JSON 数组或 CSV 文件".
Definition unsortable_keys : string :=
  "'<' not supported between instances of 'NoneType' and 'str'".

Definition api_import (req : request) (env : nat -> event) (db : database)
  : response * database :=
  if is_json req then
    match get_json req with
    | Raise e => (error_response 500 e, db)
    | Return (JArr items) =>
        match import_items env 0 items (mk_tally 0 0 []) db with
        | (Return t, db') => (summary_response t, db')
        | (Raise e, db') => (error_response 500 e, db')
        end
    | Return _ => (error_response 400 not_an_array, db)
    end
  else
    match lookup String.eqb "file" (files req) with
    | Some (Raise e) => (error_response 500 e, db)
    | Some (Return stream) =>
        let rows := dict_reader stream in
        match import_rows env 0 rows (mk_tally 0 0 []) db with
        | (Return t, db') =>
            if forallb sortable (rows_of rows) then (summary_response t, db')
            else (error_response 500 unsortable_keys, db')
        | (Raise e, db') => (error_response 500 e, db')
        end
    | None => (error_response 400 nothing_to_import, db)
    end.

(** ** /api/chat (lines 289-313) *)

Section Chat.

Variable json_loads : string -> option json.
Variable post : string -> string -> outcome json.

(** [body] is [request.json], [time_iso] what
    [datetime.datetime.now().isoformat()] gives, [e] the environment of the
    insert of the store branch. *)
Definition chat (body : json) (time_iso : string) (e : event)
  (db : database) : response * database :=
  match body with
  | JObj fields =>
      match get_default "message" (JStr "") fields with
      | JStr user_msg =>
          let intent := analyze user_msg in
          let name := extract_name user_msg in
          let '(db_result, context, db') :=
            if (intent =? "query")%string then
              (JArr (map document_json
                         (query_documents json_loads name None 20 db)),
               "查询", db)
            else
              let record :=
                JObj [("student_name", json_of_option name);
                      ("content", JStr user_msg);
                      ("time", JStr time_iso)] in
              (record, "记录",
               snd (add_document e (JStr "record") (json_of_option name)
                                 record db)) in
          match reply post user_msg db_result context with
          | Return text =>
              (Response 200 (JObj [("status", JStr "success");
                                   ("response", text)]), db')
          | Raise exc => (Unhandled exc, db')
          end
      | other => (Unhandled (no_attribute other "lower"), db)
      end
  | other => (Unhandled (no_attribute other "get"), db)
  end.

End Chat.

(** ** /api/students (lines 167-171) *)

Section Students.

Variable json_loads : string -> option json.

Definition api_students (db : database) : response :=
  let docs := query_documents json_loads None (Some "student") 200 db in
  Response 200 (JObj [("status", JStr "success");
                      ("students", JArr (map document_json docs))]).

End Students.

End App.

Import Py Sqlite App.

(* ================================================================== *)
(** * Vocabulary of the properties *)
(* ================================================================== *)

(** [a] is not after [b], as SQLite compares two texts. *)
Definition not_after (a b : string) : Prop := String.leb a b = true.

(** Newest first: every row is not older than the rows after it. *)
Definition newest_first (rows : list row) : Prop :=
  StronglySorted (fun a b => not_after (created_time b) (created_time a))
                 rows.

(** [v] is what the result loop makes of a stored text: the decoded value,
    or the text itself when it does not decode. *)
Definition decoded (json_loads : string -> option json) (text : string)
  (v : json) : Prop :=
  (forall x, json_loads text = Some x -> v = x)
  /\ (json_loads text = None -> v = JStr text).

(** [d] is the dict the result loop builds for the row [r]. *)
Definition presents (json_loads : string -> option json) (r : row)
  (d : document) : Prop :=
  doc_id d = id r
  /\ doc_doc_type d = Sqlite.doc_type r
  /\ doc_identifier d = Sqlite.identifier r
  /\ doc_created_time d = created_time r
  /\ decoded json_loads (data r) (doc_data d).

(** The characters hold no LIKE wildcard. *)
Definition wildcard_free (chars : list string) : Prop :=
  Forall (fun c => c <> "%" /\ c <> "_") chars.

(** [needle] occurs in [hay] up to the case of ASCII letters: some run of
    characters of [hay] equals [needle] character by character for LIKE. *)
Definition occurs_nocase (needle hay : list string) : Prop :=
  exists pre run post,
    hay = (pre ++ run ++ post)%list
    /\ Forall2 (fun p c => like_char p c = true) needle run.

(** A decoder for examples: it inverts [json_dumps] on the listed values
    and rejects every other text. *)
Definition decoder_of (known : list json) (text : string) : option json :=
  find (fun v => (json_dumps v =? text)%string) known.

(** Inputs of the examples. *)
Definition noon : event := mk_event "2024-01-01 12:00:00" true.
Definition abc_payload : json := JObj [("name", JStr "abc")].

(** What the columns [doc_type] and [identifier] hold for a value handed
    to [add_document]. *)
Definition stored_text (v : json) : option string :=
  match bind_param v with
  | Some x => text_affinity x
  | None => None
  end.

(** The number of rows whose [created_time] is not before [t]. *)
Definition not_older_count (t : string) (rows : list row) : nat :=
  length (filter (fun x => String.leb t (created_time x)) rows).

(** A sequence of calls of [add_document], each with its environment. *)
Record call : Type := mk_call {
  call_event : event;
  call_doc_type : json;
  call_identifier : json;
  call_data : json
}.

Fixpoint add_documents (calls : list call) (db : database)
  : list (bool * option Z) * database :=
  match calls with
  | [] => ([], db)
  | c :: rest =>
      let (out, db1) :=
        add_document (call_event c) (call_doc_type c) (call_identifier c)
                     (call_data c) db in
      let (outs, db2) := add_documents rest db1 in
      (out :: outs, db2)
  end.

(** The ids the calls returned, in call order. *)
Definition assigned_ids (outs : list (bool * option Z)) : list Z :=
  flat_map (fun out => match snd out with
                       | Some n => [n]
                       | None => []
                       end) outs.

Definition clock_readings (calls : list call) : list string :=
  map (fun c => now (call_event c)) calls.

(** Two inserts between which the clock was set back by five seconds. *)
Definition clock_set_back : list call :=
  [mk_call (mk_event "2024-01-01 12:00:10" true) (JStr "student") JNull
           abc_payload;
   mk_call (mk_event "2024-01-01 12:00:05" true) (JStr "student") JNull
           abc_payload].

(** Two inserts within the same second. *)
Definition same_second : list call :=
  [mk_call noon (JStr "student") JNull abc_payload;
   mk_call noon (JStr "record") (JStr "张三") abc_payload].

(** Fifty-one inserts within the same second. *)
Definition fifty_one_inserts : list call :=
  repeat (mk_call noon (JStr "student") JNull abc_payload) 51.

(** The calls of [add_document] that the loop of [api_import] makes for a
    list of dicts: one per item, in order, item number [i] first. *)
Fixpoint import_calls (env : nat -> event) (i : nat)
  (dicts : list (list (string * json))) : list call :=
  match dicts with
  | [] => []
  | it :: rest =>
      mk_call (env i) (get "doc_type" it) (get "identifier" it)
              (data_dict_of it)
      :: import_calls env (S i) rest
  end.

(** The entry of [details] for the dict [it], given the rows the import
    added: the item with status "ok" and the id of the row that holds it,
    or the item with status "fail". *)
Definition imported (new_rows : list row) (it : list (string * json))
  (detail : json) : Prop :=
  (exists r,
      In r new_rows
      /\ Sqlite.doc_type r = stored_text (get "doc_type" it)
      /\ Sqlite.identifier r = stored_text (get "identifier" it)
      /\ data r = json_dumps (data_dict_of it)
      /\ detail = JObj [("item", JObj it); ("status", JStr "ok");
                        ("id", JNum (id r))])
  \/ detail = JObj [("item", JObj it); ("status", JStr "fail")].

(** The request is neither a JSON array nor an uploaded file: its body is
    JSON of another kind, or it is not JSON and has no [file] field. *)
Definition shape_violation (req : request) : bool :=
  if is_json req then
    match get_json req with
    | Return v => negb (is_list v)
    | Raise _ => false
    end
  else
    match lookup String.eqb "file" (files req) with
    | None => true
    | Some _ => false
    end.

(** Requests of the examples. *)
Definition json_request (body : json) : request :=
  mk_request true (Return body) [].

Definition csv_request (records : list (list string)) : request :=
  mk_request false (Raise "415 Unsupported Media Type")
             [("file", Return (map Return records))].

Definition at_noon : nat -> event := fun _ => noon.

Definition zhang : list (string * json) :=
  [("doc_type", JStr "student"); ("name", JStr "张三")].
Definition li : list (string * json) :=
  [("doc_type", JObj []); ("name", JStr "李四")].

(** A completion service that answers "好的" in the expected shape. *)
Definition answers_ok : string -> string -> outcome json :=
  fun _ _ =>
    Return (JObj [("choices",
                   JArr [JObj [("message",
                                JObj [("content", JStr "好的")])]])]).

(** A request whose content type is JSON and whose body does not parse. *)
Definition malformed_json_request : request :=
  mk_request true (Raise "400 Bad Request") [].

(** The row that an insert of the payload [payload] leaves in [db'], if the
    insert succeeded; otherwise [db'] is [db]. *)
Definition stores (payload : json) (db db' : database) : Prop :=
  db' = db
  \/ exists r,
       documents db' = (documents db ++ [r])%list
       /\ data r = json_dumps payload.

(** A CSV file whose second record lacks a field. *)
Definition short_record_csv : list (list string) :=
  [["name"; "age"]; ["张三"]].

(** The bodies [jsonify] is given by [api_record] and [chat]. *)
Definition record_added : json :=
  JObj [("status", JStr "success"); ("message", JStr "记录已添加")].

Definition record_not_added : json :=
  JObj [("status", JStr "error"); ("message", JStr "添加失败")].

Definition chat_body (text : json) : json :=
  JObj [("status", JStr "success"); ("response", text)].

(** Inputs of the chat examples: a message, and three behaviours of the
    completion service. *)
Definition ask_zhang : json := JObj [("message", JStr "帮我查询张三的记录")].

Definition timed_out : string -> string -> outcome json :=
  fun _ _ => Raise "timed out".

Definition refused : string -> string -> outcome json :=
  fun _ _ => Raise "connection refused".

Definition answers_null : string -> string -> outcome json :=
  fun _ _ => Return JNull.

(** ** Vocabulary of the further properties *)

(** A value that [sqlite3] can bind: [None], a [bool], an [int] that fits
    64 bits, or a [str] that can be encoded as UTF-8 (one without a lone
    surrogate). *)
Definition bindable (v : json) : Prop :=
  match v with
  | JArr _ | JObj _ => False
  | JNum n => min_int64 <= n <= max_int64
  | JStr s => encodable s = true
  | _ => True
  end.

(** The rowid AUTOINCREMENT would give next is still available. *)
Definition rowid_available (db : database) : Prop :=
  Z.max (sqlite_sequence db) (largest_rowid (documents db)) < max_int64.

(** The id AUTOINCREMENT gives to the next row. *)
Definition next_id (db : database) : Z :=
  Z.max (sqlite_sequence db) (largest_rowid (documents db)) + 1.

(** The insert of [add_document] goes through: the storage accepts the
    write, the three values can be bound, and a rowid is left. *)
Definition accepted (e : event) (doc_type identifier data_dict : json)
  (db : database) : Prop :=
  storage_ok e = true
  /\ bindable doc_type /\ bindable identifier
  /\ encodable (json_dumps data_dict) = true
  /\ rowid_available db.

(** The table after a successful insert: one more row, with the next id. *)
Definition with_document (e : event) (doc_type identifier data_dict : json)
  (db : database) : database :=
  mk_database
    (documents db
       ++ [mk_row (next_id db) (stored_text doc_type) (stored_text identifier)
                  (json_dumps data_dict) (now e)])
    (next_id db).

(** The entry of [details] that [api_import] writes for the dict [it] when
    [add_document] returned [out] for it. *)
Definition detail_of (it : list (string * json)) (out : bool * option Z)
  : json :=
  if fst out then
    JObj [("item", JObj it); ("status", JStr "ok");
          ("id", match snd out with
                 | Some n => JNum n
                 | None => JNull
                 end)]
  else JObj [("item", JObj it); ("status", JStr "fail")].

Definition details_of (dicts : list (list (string * json)))
  (outs : list (bool * option Z)) : list json :=
  map (fun p => detail_of (fst p) (snd p)) (combine dicts outs).

(** How many of the calls returned [True], and how many [False]. *)
Definition successes (outs : list (bool * option Z)) : Z :=
  Z.of_nat (length (filter (fun out => fst out) outs)).

Definition failures (outs : list (bool * option Z)) : Z :=
  Z.of_nat (length (filter (fun out => negb (fst out)) outs)).

(** The payload that [api_record] hands to [add_document] (lines 181-185). *)
Definition record_of (data : list (string * json)) (time_iso : string)
  : json :=
  JObj [("student_name", get "student_name" data);
        ("record_type", get_default "record_type" (JStr "record") data);
        ("content", get "content" data);
        ("time", JStr time_iso)].

(** The statement [query_documents] builds can be prepared and run: the
    limit fits 64 bits, the texts can be encoded, and the LIKE pattern is
    not longer than SQLite's limit of 50000 bytes. *)
Definition select_runs (search_text doc_type : option string) (limit : Z)
  : Prop :=
  min_int64 <= limit <= max_int64
  /\ (forall t, given doc_type = Some t -> encodable t = true)
  /\ (forall s, given search_text = Some s ->
                 encodable s = true
                 /\ Z.of_nat (String.length ("%" ++ s ++ "%")) <= 50000).

(** [db'] is [db] with rows appended whose ids are strictly increasing and
    larger than every id of [db]: nothing was changed or removed. *)
Definition appended (db db' : database) : Prop :=
  exists new_rows,
    documents db' = (documents db ++ new_rows)%list
    /\ StronglySorted Z.lt (map id new_rows)
    /\ Forall (fun r => Forall (fun old => id old < id r) (documents db))
              new_rows.

(** The ids of the table are strictly increasing in rowid order. *)
Definition ids_increasing (db : database) : Prop :=
  StronglySorted Z.lt (map id (documents db)).

(** The row passes the filters of a call of [query_documents]. *)
Definition wanted (search_text doc_type : option string) (r : row) : Prop :=
  (forall t, given doc_type = Some t -> Sqlite.doc_type r = Some t)
  /\ (forall s, given search_text = Some s ->
                 like (data r) ("%" ++ s ++ "%") = true).

(** The rows of the table that pass the filters, in rowid order. *)
Definition wanted_rows (search_text doc_type : option string)
  (db : database) : list row :=
  filter (where_clause (given doc_type)
                       (match given search_text with
                        | Some s => Some ("%" ++ s ++ "%")
                        | None => None
                        end))
         (documents db).

(** The record that [chat] stores for a message (lines 302-306). *)
Definition chat_record (user_msg time_iso : string) : json :=
  JObj [("student_name", json_of_option (extract_name user_msg));
        ("content", JStr user_msg);
        ("time", JStr time_iso)].

(** Inputs of further examples. *)
Definition note_zhang : list (string * json) :=
  [("message", JStr "记录张三迟到")].

Definition answer_with_error : list (string * json) :=
  [("error", JStr "quota exceeded");
   ("choices", JArr [JObj [("message", JObj [("content", JStr "好的")])]])].

Definition answers_with_error : string -> string -> outcome json :=
  fun _ _ => Return (JObj answer_with_error).

(** The text made of the characters [chars]. *)
Fixpoint flatten (chars : list string) : string :=
  match chars with
  | [] => ""
  | c :: rest => c ++ flatten rest
  end.

(** Every byte of [s] is a continuation byte. *)
Fixpoint all_continuation (s : string) : bool :=
  match s with
  | EmptyString => true
  | String c rest => is_continuation c && all_continuation rest
  end.

(** A character as [utf8_chars] cuts it: a byte and continuation bytes. *)
Definition character (ch : string) : Prop :=
  match ch with
  | EmptyString => False
  | String _ rest => all_continuation rest = true
  end.

(** A character of three bytes: a lead byte and two continuation bytes. *)
Definition three_bytes (ch : string) : Prop :=
  exists b0 b1 b2,
    ch = String b0 (String b1 (String b2 ""))
    /\ is_lead b0 = true
    /\ is_continuation b1 = true /\ is_continuation b2 = true.

(** What is stored for the cell of a CSV row under a column: the text of a
    non-empty cell, NULL for an empty or a missing one. *)
Definition cell (name : string) (row : csv_row) : option string :=
  match lookup key_eqb (Some name) row with
  | Some (JStr s) => given (Some s)
  | _ => None
  end.

(** The data records of a CSV file: the records after the header that are
    not blank. *)
Definition data_records (records : list (list string))
  : list (list string) :=
  filter (fun record => negb (is_blank record)) (tl records).

(** A CSV file of the examples: a header, a record, a blank line, and a
    record that lacks a field. *)
Definition three_line_csv : list (list string) :=
  [["doc_type"; "name"]; ["student"; "张三"]; []; ["student"]].

(* ================================================================== *)
(** * Properties *)
(* ================================================================== *)

(** ** The embedding on small inputs *)

Example json_dumps_list :
  json_dumps (JArr [JNum 1; JNull; JBool true; JNum (-20)])
  = "[1, null, true, -20]".
Proof. reflexivity. Qed.

Example json_dumps_keeps_unicode :
  json_dumps (JStr "张三") = dquote ++ "张三" ++ dquote.
Proof. reflexivity. Qed.

Example utf8_chars_mixed : utf8_chars "a张_三" = ["a"; "张"; "_"; "三"].
Proof. reflexivity. Qed.

Example like_ignores_ascii_case : like "Zhang San" "%zhang s_n%" = true.
Proof. reflexivity. Qed.

Example like_no_match : like "张三" "%李%" = false.
Proof. reflexivity. Qed.

(** LIKE reads a text up to its first NUL: what comes after it is not
    searched, and a pattern ends there. *)
Example like_stops_at_nul :
  like (String "000"%char "张三") "%张三%" = false
  /\ like "abc" ("%" ++ String "000"%char "zzz%") = true.
Proof. split; reflexivity. Qed.

(** A lone surrogate cannot be bound: the insert fails. *)
Example add_document_lone_surrogate :
  let surrogate := String "237"%char (String "160"%char (String "128"%char ""))
  in
  encodable surrogate = false
  /\ add_document noon (JStr "student") JNull (JObj [("name", JStr surrogate)])
                  empty
     = ((false, None), empty).
Proof. split; reflexivity. Qed.

Example analyze_store : analyze "帮我记录张三迟到" = "store".
Proof. reflexivity. Qed.

Example analyze_default : analyze "hello" = "query".
Proof. reflexivity. Qed.

Example extract_name_greedy :
  extract_name "帮我查询张三的记录" = Some "张三的".
Proof. reflexivity. Qed.

Example extract_name_none : extract_name "查询 Zhang" = None.
Proof. reflexivity. Qed.

Example dict_reader_ragged :
  dict_reader (map Return [["a"; "b"]; ["1"]; []; ["1"; "2"; "3"]])
  = [Return [(Some "a", JStr "1"); (Some "b", JNull)];
     Return [(Some "a", JStr "1"); (Some "b", JStr "2");
             (None, JArr [JStr "3"])]].
Proof. reflexivity. Qed.

Example dict_reader_duplicate_column :
  dict_reader (map Return [["a"; "a"]; ["1"; "2"]])
  = [Return [(Some "a", JStr "2")]].
Proof. reflexivity. Qed.

Example chat_store_path :
  let run := chat (decoder_of []) answers_ok
                  (JObj [("message", JStr "记录张三迟到")])
                  "2024-01-01T12:00:00" noon empty in
  fst run = Response 200 (chat_body (JStr "好的"))
  /\ map Sqlite.doc_type (documents (snd run)) = [Some "record"]
  /\ map Sqlite.identifier (documents (snd run)) = [Some "张三迟"].
Proof. vm_compute. repeat split. Qed.

(** ** Strings *)

Lemma prefix_app (a b : string) :
  String.prefix a b = true <-> exists post, b = (a ++ post)%string.
Proof.
  revert b; induction a as [|c a IH]; intros b.
  - split; [intros _; exists b; reflexivity | intros _; now destruct b].
  - destruct b as [|c' b]; simpl.
    + split; [discriminate | intros [post H]; discriminate].
    + destruct (ascii_dec c c') as [->|Hne].
      * rewrite IH. split; intros [post H]; exists post.
        -- now rewrite H.
        -- now injection H.
      * split; [discriminate |].
        intros [post H]. injection H as H1 _. now elim Hne.
Qed.

Lemma contains_Substring (needle hay : string) :
  contains needle hay = true <-> Substring needle hay.
Proof.
  unfold Substring. induction hay as [|c hay IH]; cbn [contains].
  - rewrite orb_false_r, prefix_app. split.
    + intros [post H]. exists ""%string, post. exact H.
    + intros [[|c pre] [post H]]; [exists post; exact H | discriminate].
  - rewrite orb_true_iff, prefix_app, IH. split.
    + intros [[post H] | [pre [post H]]].
      * exists ""%string, post. exact H.
      * exists (String c pre), post. simpl. now rewrite H.
    + intros [[|c' pre] [post H]].
      * left. exists post. exact H.
      * right. exists pre, post. simpl in H. now injection H.
Qed.

Lemma existsb_contains (keywords : list string) (text : string) :
  existsb (fun k => contains k text) keywords = true
  <-> Exists (fun k => Substring k text) keywords.
Proof.
  rewrite existsb_exists, Exists_exists.
  split; intros [k [Hin H]]; exists k; split; trivial;
    now apply contains_Substring.
Qed.

(** ** The intent classifier *)

(** C3.  The classifier looks at the lower-cased text: it answers "store"
    exactly when no query keyword but some store keyword occurs in it, and
    "query" in every other case, that is when a query keyword occurs, or
    when no keyword of either list occurs.  "帮我查询张三的记录" is
    classified as "query". *)
Theorem analyze_classifies (text : string) :
  let present := fun k => Substring k (lower text) in
  (analyze text = "store"
   <-> ~ Exists present query_keywords /\ Exists present store_keywords)
  /\ (analyze text = "query"
      <-> Exists present query_keywords
          \/ ~ Exists present store_keywords)
  /\ analyze "帮我查询张三的记录" = "query".
Proof.
  intros present.
  assert (Hquery : analyze "帮我查询张三的记录" = "query") by reflexivity.
  revert Hquery. generalize (analyze "帮我查询张三的记录"). intros example Hex.
  unfold analyze.
  pose proof (existsb_contains query_keywords (lower text)) as Hq.
  pose proof (existsb_contains store_keywords (lower text)) as Hs.
  fold present in Hq, Hs.
  destruct (existsb _ query_keywords); destruct (existsb _ store_keywords);
    intuition (discriminate || auto).
Qed.

(** ** Order of timestamps *)

Lemma compare_not_Gt_trans (a b c : string) :
  String.compare a b <> Gt -> String.compare b c <> Gt ->
  String.compare a c <> Gt.
Proof.
  revert b c; induction a as [|x a IH]; intros [|y b] [|z c]; simpl;
    try congruence.
  unfold Ascii.compare.
  destruct (N.compare_spec (N_of_ascii x) (N_of_ascii y)) as [Exy|Lxy|Gxy];
    destruct (N.compare_spec (N_of_ascii y) (N_of_ascii z)) as [Eyz|Lyz|Gyz];
    destruct (N.compare_spec (N_of_ascii x) (N_of_ascii z)) as [Exz|Lxz|Gxz];
    try congruence; try lia.
  apply IH.
Qed.

Lemma not_after_trans (a b c : string) :
  not_after a b -> not_after b c -> not_after a c.
Proof.
  unfold not_after, String.leb. intros Hab Hbc.
  pose proof (compare_not_Gt_trans a b c) as H.
  destruct (String.compare a b), (String.compare b c), (String.compare a c);
    try reflexivity; try discriminate; exfalso; apply H; congruence.
Qed.

Lemma not_newer_not_after (x r : row) :
  newer x r = false -> not_after (created_time x) (created_time r).
Proof.
  unfold newer, not_after, String.ltb, String.leb.
  rewrite (String.compare_antisym (created_time x)).
  destruct (String.compare (created_time r) (created_time x));
    simpl; congruence.
Qed.

Lemma newer_not_after (x r : row) :
  newer x r = true -> not_after (created_time r) (created_time x).
Proof.
  unfold newer, not_after, String.ltb, String.leb.
  destruct (String.compare (created_time r) (created_time x));
    simpl; congruence.
Qed.

(** ** The SELECT *)

Lemma filter_all {A : Type} (p : A -> bool) (l : list A) :
  (forall x, p x = true) -> filter p l = l.
Proof.
  intros Hp. induction l as [|x l IH]; simpl; [reflexivity|].
  now rewrite Hp, IH.
Qed.

Lemma insert_sorted_In (r x : row) (l : list row) :
  In x (insert_sorted r l) <-> x = r \/ In x l.
Proof.
  induction l as [|y l IH]; simpl.
  - intuition.
  - destruct (newer y r); simpl; rewrite ?IH; intuition.
Qed.

Lemma order_by_In (x : row) (l : list row) :
  In x (order_by_created_time_desc l) <-> In x l.
Proof.
  induction l as [|y l IH]; simpl; [tauto|].
  rewrite insert_sorted_In, IH. intuition.
Qed.

Lemma insert_sorted_newest_first (r : row) (l : list row) :
  newest_first l -> newest_first (insert_sorted r l).
Proof.
  unfold newest_first.
  induction l as [|y l IH]; simpl; intros Hs.
  - repeat constructor.
  - inversion Hs as [|? ? Hl Hy]; subst.
    destruct (newer y r) eqn:E.
    + constructor; [now apply IH|].
      apply Forall_forall. intros x Hx.
      apply insert_sorted_In in Hx. destruct Hx as [->|Hx].
      * now apply newer_not_after.
      * rewrite Forall_forall in Hy. now apply Hy.
    + constructor; [assumption|].
      constructor; [now apply not_newer_not_after|].
      apply Forall_forall. intros x Hx.
      rewrite Forall_forall in Hy.
      eapply not_after_trans; [apply Hy, Hx|].
      now apply not_newer_not_after.
Qed.

Lemma order_by_newest_first (l : list row) :
  newest_first (order_by_created_time_desc l).
Proof.
  induction l as [|y l IH]; simpl.
  - constructor.
  - now apply insert_sorted_newest_first.
Qed.

Lemma StronglySorted_firstn {A : Type} (R : A -> A -> Prop) (n : nat)
  (l : list A) :
  StronglySorted R l -> StronglySorted R (firstn n l).
Proof.
  revert l; induction n as [|n IH]; intros [|x l] Hs; simpl;
    try constructor.
  - apply IH. now inversion Hs.
  - inversion Hs as [|? ? _ Hx]; subst.
    apply Forall_forall. intros y Hy.
    rewrite Forall_forall in Hx. apply Hx.
    revert Hy. clear. revert l. induction n; intros [|z l]; simpl; try tauto.
    intros [->|H]; [now left | right; eauto].
Qed.

Lemma limit_rows_In (limit : Z) (x : row) (l : list row) :
  In x (limit_rows limit l) -> In x l.
Proof.
  unfold limit_rows. destruct (limit <? 0); [trivial|].
  revert l. induction (Z.to_nat limit) as [|n IH]; intros [|y l]; simpl;
    try tauto.
  intros [->|H]; [now left | right; eauto].
Qed.

Lemma limit_rows_length (limit : Z) (l : list row) :
  limit < 0 \/ Z.of_nat (length (limit_rows limit l)) <= limit.
Proof.
  unfold limit_rows. destruct (Z.ltb_spec limit 0) as [H|H]; [now left|].
  right. pose proof (firstn_le_length (Z.to_nat limit) l) as Hl. lia.
Qed.

Lemma limit_rows_newest_first (limit : Z) (l : list row) :
  newest_first l -> newest_first (limit_rows limit l).
Proof.
  unfold limit_rows. destruct (limit <? 0); [trivial|].
  apply StronglySorted_firstn.
Qed.

Lemma select_In (tp lp : option string) (limit : Z) (db : database)
  (r : row) :
  In r (select tp lp limit db) ->
  In r (documents db) /\ where_clause tp lp r = true.
Proof.
  unfold select. intros H.
  apply limit_rows_In, order_by_In, filter_In in H. exact H.
Qed.

Lemma select_newest_first (tp lp : option string) (limit : Z)
  (db : database) :
  newest_first (select tp lp limit db).
Proof.
  unfold select. apply limit_rows_newest_first, order_by_newest_first.
Qed.

(** ** LIKE *)

Lemma utf8_chars_cons_ascii (c : ascii) (s : string) :
  is_continuation c = false -> is_lead c = false ->
  utf8_chars (String c s) = String c "" :: utf8_chars s.
Proof.
  intros Hc Hl. unfold utf8_chars. simpl.
  destruct (utf8_split s) as [k chars]. now rewrite Hc, Hl.
Qed.

Lemma utf8_split_app_ascii (s : string) (c : ascii) :
  is_continuation c = false -> is_lead c = false ->
  utf8_split (s ++ String c "")
  = (fst (utf8_split s), (snd (utf8_split s) ++ [String c ""])%list).
Proof.
  intros Hc Hl. induction s as [|b s IH]; simpl.
  - now rewrite Hc, Hl.
  - rewrite IH. destruct (utf8_split s) as [k chars]. simpl.
    destruct (is_continuation b); [reflexivity|].
    destruct (is_lead b); [reflexivity|].
    simpl. now rewrite <- app_assoc.
Qed.

Lemma utf8_chars_app_ascii (s : string) (c : ascii) :
  is_continuation c = false -> is_lead c = false ->
  utf8_chars (s ++ String c "") = (utf8_chars s ++ [String c ""])%list.
Proof.
  intros Hc Hl. unfold utf8_chars.
  rewrite utf8_split_app_ascii by assumption.
  destruct (utf8_split s) as [k chars]. simpl. now rewrite app_assoc.
Qed.

Lemma like_pattern_chars (s : string) :
  utf8_chars ("%" ++ s ++ "%")
  = ("%" :: utf8_chars s ++ ["%"])%list.
Proof.
  change ("%" ++ s ++ "%")%string with (String "%"%char (s ++ "%")).
  rewrite utf8_chars_cons_ascii by reflexivity.
  now rewrite utf8_chars_app_ascii by reflexivity.
Qed.

Lemma like_chars_percent (text : list string) :
  like_chars ["%"] text = true.
Proof.
  induction text as [|c text IH]; [reflexivity|].
  simpl in *. exact IH.
Qed.

Lemma like_chars_any_run (pattern text : list string) :
  like_chars ("%" :: pattern) text = true
  <-> exists pre rest,
        text = (pre ++ rest)%list /\ like_chars pattern rest = true.
Proof.
  induction text as [|c text IH].
  - simpl. rewrite orb_false_r. split.
    + intros H. now exists [], [].
    + intros [pre [rest [Heq H]]]. symmetry in Heq.
      apply app_eq_nil in Heq. destruct Heq as [_ ->]. exact H.
  - change (like_chars ("%" :: pattern) (c :: text))
      with (like_chars pattern (c :: text)
            || like_chars ("%" :: pattern) text).
    rewrite orb_true_iff, IH. split.
    + intros [H | [pre [rest [-> H]]]].
      * now exists [], (c :: text).
      * now exists (c :: pre), rest.
    + intros [[|c' pre] [rest [Heq H]]]; simpl in Heq.
      * left. now rewrite Heq.
      * right. injection Heq as _ ->. now exists pre, rest.
Qed.

Lemma like_chars_literal (p : string) (pattern text : list string) :
  (p =? "%")%string = false -> (p =? "_")%string = false ->
  like_chars (p :: pattern) text
  = match text with
    | [] => false
    | c :: text' => like_char p c && like_chars pattern text'
    end.
Proof. intros Hp Hu. simpl. now rewrite Hp, Hu. Qed.

Lemma like_chars_prefix (pattern text : list string) :
  wildcard_free pattern ->
  like_chars (pattern ++ ["%"]) text = true
  <-> exists run post,
        text = (run ++ post)%list
        /\ Forall2 (fun p c => like_char p c = true) pattern run.
Proof.
  intros Hfree. revert text.
  induction Hfree as [|p pattern [Hp Hu] _ IH]; intros text.
  - simpl app. rewrite like_chars_percent. split; [intros _|reflexivity].
    exists [], text. split; [reflexivity | constructor].
  - simpl app. apply String.eqb_neq in Hp, Hu.
    rewrite like_chars_literal by assumption.
    destruct text as [|c text].
    + split; [discriminate|].
      intros [run [post [Heq H]]]. inversion H; subst. discriminate.
    + rewrite andb_true_iff, IH. split.
      * intros [Hc [run [post [-> H]]]].
        exists (c :: run), post. split; [reflexivity | now constructor].
      * intros [run [post [Heq H]]]. inversion H; subst.
        simpl in Heq. injection Heq as <- ->.
        split; [assumption|]. now eexists _, post.
Qed.

Lemma c_text_app (a b : string) :
  c_text a = a -> c_text (a ++ b) = (a ++ c_text b)%string.
Proof.
  induction a as [|c a IH]; simpl; [reflexivity|].
  destruct (N_of_ascii c =? 0)%N; [discriminate|].
  intros H. injection H as H. now rewrite IH.
Qed.

Lemma c_text_pattern (s : string) :
  c_text s = s -> c_text ("%" ++ s ++ "%") = ("%" ++ s ++ "%")%string.
Proof.
  intros H. change ("%" ++ s ++ "%")%string with (String "%"%char (s ++ "%")).
  simpl. now rewrite (c_text_app s "%" H).
Qed.

(** For a search text without wildcards and without a NUL,
    [data LIKE '%text%'] says that the text occurs, up to the case of ASCII
    letters, in the data as far as LIKE reads it. *)
Lemma like_occurs (payload s : string) :
  wildcard_free (utf8_chars s) -> c_text s = s ->
  like payload ("%" ++ s ++ "%") = true
  <-> occurs_nocase (utf8_chars s) (utf8_chars (c_text payload)).
Proof.
  intros Hfree Hnul. unfold like, occurs_nocase.
  rewrite (c_text_pattern s Hnul).
  rewrite like_pattern_chars, like_chars_any_run. split.
  - intros [pre [rest [Heq H]]].
    apply like_chars_prefix in H; [|exact Hfree].
    destruct H as [run [post [-> H]]]. now exists pre, run, post.
  - intros [pre [run [post [Heq H]]]].
    exists pre, (run ++ post)%list. split; [exact Heq|].
    apply like_chars_prefix; [exact Hfree|]. now exists run, post.
Qed.

(** ** query_documents *)

Lemma build_document_presents (json_loads : string -> option json)
  (r : row) :
  presents json_loads r (build_document json_loads r).
Proof.
  unfold presents, decoded, build_document; simpl.
  repeat split; trivial.
  - intros x Hx. now rewrite Hx.
  - intros Hx. now rewrite Hx.
Qed.

(** C7.  The result of [query_documents] has one dict per row the SELECT
    returns, in order; each has the row's columns and, as [data], the value
    [json.loads] gives for the stored text, or the stored text itself when
    [json.loads] fails on it.  The function is total: a text that does not
    decode never makes it fail.  In particular the query with no filter and
    no limit presents every stored row in this way. *)
Theorem query_documents_decodes_data (json_loads : string -> option json)
  (search_text doc_type : option string) (limit : Z) (db : database) :
  Forall2 (presents json_loads)
    (select (given doc_type)
            (match given search_text with
             | Some s => Some ("%" ++ s ++ "%")
             | None => None
             end)
            limit db)
    (query_documents json_loads search_text doc_type limit db)
  /\ Forall (fun r =>
               exists d,
                 In d (query_documents json_loads None None (-1) db)
                 /\ presents json_loads r d)
            (documents db).
Proof.
  unfold query_documents. split.
  - set (rows := select _ _ _ _). clearbody rows.
    induction rows as [|r rows IH]; simpl; constructor.
    + apply build_document_presents.
    + exact IH.
  - apply Forall_forall. intros r Hr.
    exists (build_document json_loads r).
    split; [|apply build_document_presents].
    apply in_map. unfold select, limit_rows. simpl.
    apply order_by_In. now rewrite filter_all.
Qed.

Lemma StronglySorted_map {A B : Type} (f : A -> B) (R : B -> B -> Prop)
  (l : list A) :
  StronglySorted (fun a b => R (f a) (f b)) l -> StronglySorted R (map f l).
Proof.
  induction 1 as [|x l _ IH Hx]; simpl; constructor; trivial.
  apply Forall_forall. intros y Hy. apply in_map_iff in Hy.
  destruct Hy as [z [<- Hz]]. rewrite Forall_forall in Hx. now apply Hx.
Qed.




(** ** add_document *)

Lemma largest_rowid_bound (rows : list row) :
  Forall (fun r => id r <= largest_rowid rows) rows.
Proof.
  induction rows as [|r rows IH]; simpl; constructor; [lia|].
  eapply Forall_impl; [|exact IH]. simpl. intros; lia.
Qed.

(** The two ways [add_document] can end. *)
Lemma add_document_cases (e : event) (dt idn payload : json)
  (db : database) :
  (exists new_id,
     add_document e dt idn payload db
     = ((true, Some new_id),
        mk_database
          (documents db
             ++ [mk_row new_id (stored_text dt) (stored_text idn)
                        (json_dumps payload) (now e)])
          new_id)
     /\ Forall (fun r => id r < new_id) (documents db))
  \/ add_document e dt idn payload db = ((false, None), db).
Proof.
  unfold add_document, stored_text, insert.
  destruct (storage_ok e); [|now right].
  destruct (bind_param dt) as [vdt|]; [|now right].
  destruct (bind_param idn) as [vidn|]; [|now right].
  cbn [bind_param].
  destruct (encodable (json_dumps payload)); [|now right].
  destruct (_ <? max_int64); [|now right].
  left. eexists. split; [reflexivity|].
  eapply Forall_impl; [|apply largest_rowid_bound]. simpl. intros; lia.
Qed.

Lemma bind_param_bindable (v : json) :
  bind_param v <> None <-> bindable v.
Proof.
  destruct v as [|b|n|s|items|fields]; simpl.
  - split; [trivial | discriminate].
  - split; [trivial | discriminate].
  - unfold min_int64, max_int64.
    destruct (Z.leb_spec (-9223372036854775808) n),
             (Z.leb_spec n 9223372036854775807); simpl;
      split; try discriminate; try lia; intros Hnone; now elim Hnone.
  - destruct (encodable s); split; try discriminate; trivial.
    intros Hnone; now elim Hnone.
  - split; [intros H; now elim H | intros []].
  - split; [intros H; now elim H | intros []].
Qed.

(** An accepted insert appends the row with the next id. *)
Lemma add_document_accepted (e : event) (dt idn payload : json)
  (db : database) :
  accepted e dt idn payload db ->
  add_document e dt idn payload db
  = ((true, Some (next_id db)), with_document e dt idn payload db).
Proof.
  intros [Hs [Hdt [Hidn [Henc Hrow]]]].
  apply bind_param_bindable in Hdt, Hidn.
  unfold add_document, insert, with_document, stored_text, next_id.
  rewrite Hs.
  destruct (bind_param dt); [|now elim Hdt].
  destruct (bind_param idn); [|now elim Hidn].
  cbn [bind_param]. rewrite Henc.
  unfold rowid_available in Hrow.
  destruct (Z.ltb_spec (Z.max (sqlite_sequence db)
                              (largest_rowid (documents db))) max_int64);
    [reflexivity | lia].
Qed.

(** Only an accepted insert succeeds. *)
Lemma add_document_true (e : event) (dt idn payload : json)
  (db : database) :
  fst (fst (add_document e dt idn payload db)) = true ->
  accepted e dt idn payload db.
Proof.
  unfold add_document, insert.
  destruct (storage_ok e) eqn:Hs; [|discriminate].
  destruct (bind_param dt) eqn:Hdt; [|discriminate].
  destruct (bind_param idn) eqn:Hidn; [|discriminate].
  cbn [bind_param].
  destruct (encodable (json_dumps payload)) eqn:Henc; [|discriminate].
  destruct (Z.ltb_spec (Z.max (sqlite_sequence db)
                              (largest_rowid (documents db))) max_int64);
    [|discriminate].
  intros _. repeat split; trivial; apply bind_param_bindable; congruence.
Qed.

(** An insert that is not accepted changes nothing. *)
Lemma add_document_refused (e : event) (dt idn payload : json)
  (db : database) :
  ~ accepted e dt idn payload db ->
  add_document e dt idn payload db = ((false, None), db).
Proof.
  intros Hno. unfold add_document, insert.
  destruct (storage_ok e) eqn:Hs; [|reflexivity].
  destruct (bind_param dt) eqn:Hdt; [|reflexivity].
  destruct (bind_param idn) eqn:Hidn; [|reflexivity].
  cbn [bind_param].
  destruct (encodable (json_dumps payload)) eqn:Henc; [|reflexivity].
  destruct (Z.ltb_spec (Z.max (sqlite_sequence db)
                              (largest_rowid (documents db))) max_int64);
    [|reflexivity].
  elim Hno. repeat split; trivial;
    apply bind_param_bindable; congruence.
Qed.

(** C6, as the code has it.  A sequence of calls of [add_document] appends
    one row per successful call.  The ids returned are the ids of these
    rows in call order; they are strictly increasing, hence distinct, and
    larger than every id the table held before.  The [created_time] of a
    new row is a clock reading of the calls, and the [created_time]s are
    non-decreasing in insertion order whenever the clock readings of the
    calls are, that is, as long as the clock is not set back. *)
Theorem add_documents_ids_and_times (calls : list call) (db : database) :
  exists new_rows,
    documents (snd (add_documents calls db))
    = (documents db ++ new_rows)%list
    /\ map id new_rows = assigned_ids (fst (add_documents calls db))
    /\ StronglySorted Z.lt (map id new_rows)
    /\ Forall (fun r => Forall (fun old => id old < id r) (documents db))
              new_rows
    /\ Forall (fun r => In (created_time r) (clock_readings calls)) new_rows
    /\ (StronglySorted not_after (clock_readings calls) ->
        StronglySorted not_after (map created_time new_rows)).
Proof.
  revert db. induction calls as [|c calls IH]; intros db; simpl.
  - exists []. rewrite app_nil_r. repeat split; constructor.
  - destruct (add_document_cases (call_event c) (call_doc_type c)
                (call_identifier c) (call_data c) db)
      as [[new_id [E Hold]] | E]; rewrite E; clear E.
    + match goal with
      | |- context [add_documents calls ?d] =>
          destruct (IH d) as [rows [Hdocs [Hids [Hsorted [Hnew [Hin Hct]]]]]];
          destruct (add_documents calls d) as [outs db2]
      end.
      simpl in *.
      set (r := mk_row new_id _ _ _ _) in *.
      exists (r :: rows). repeat split.
      * rewrite Hdocs, <- app_assoc. reflexivity.
      * simpl. now rewrite Hids.
      * simpl. constructor; [exact Hsorted|].
        apply Forall_forall. intros n Hn. apply in_map_iff in Hn.
        destruct Hn as [x [<- Hx]].
        rewrite Forall_forall in Hnew. specialize (Hnew x Hx).
        rewrite Forall_forall in Hnew. apply (Hnew r).
        apply in_or_app. right. now left.
      * constructor; [exact Hold|].
        eapply Forall_impl; [|exact Hnew]. simpl. intros x Hx.
        rewrite Forall_forall in *. intros old Hin'. apply Hx.
        apply in_or_app. now left.
      * constructor; [now left|].
        eapply Forall_impl; [|exact Hin]. simpl. intros; now right.
      * intros Hclock. inversion Hclock as [|? ? Hrest Hfirst]; subst.
        simpl. constructor; [now apply Hct|].
        apply Forall_forall. intros t Ht. apply in_map_iff in Ht.
        destruct Ht as [x [<- Hx]].
        rewrite Forall_forall in Hin, Hfirst. apply Hfirst, Hin, Hx.
    + destruct (IH db) as [rows [Hdocs [Hids [Hsorted [Hnew [Hin Hct]]]]]].
      destruct (add_documents calls db) as [outs db2]. simpl in *.
      exists rows. repeat split; trivial.
      * eapply Forall_impl; [|exact Hin]. simpl. intros; now right.
      * intros Hclock. apply Hct. now inversion Hclock.
Qed.

Lemma add_documents_ids_and_times_witness :
  StronglySorted Z.lt (assigned_ids (fst (add_documents same_second empty)))
  /\ StronglySorted not_after
       (map created_time (documents (snd (add_documents same_second empty)))).
Proof.
  destruct (add_documents_ids_and_times same_second empty)
    as [rows [Hdocs [Hids [Hsorted [_ [_ Hct]]]]]].
  rewrite Hdocs, <- Hids.
  change (documents empty ++ rows)%list with rows.
  split; [exact Hsorted|].
  apply Hct. vm_compute. repeat constructor.
Defined.

(** C6 as stated fails: when the clock is set back between two inserts the
    second row has the larger id and the smaller [created_time]. *)
Lemma created_time_follows_the_clock :
  let db := snd (add_documents clock_set_back empty) in
  map id (documents db) = [1; 2]
  /\ map created_time (documents db)
     = ["2024-01-01 12:00:10"; "2024-01-01 12:00:05"]
  /\ String.leb "2024-01-01 12:00:10" "2024-01-01 12:00:05" = false.
Proof. vm_compute. repeat split. Qed.

(** ** Insert, then query *)

(** Where [insert_sorted] puts [x] relative to a row [r] already placed. *)
Lemma insert_sorted_split (x r : row) (pre post : list row) :
  Forall (fun y => not_after (created_time r) (created_time y)) pre ->
  exists pre' post',
    insert_sorted x (pre ++ r :: post) = (pre' ++ r :: post')%list
    /\ Forall (fun y => not_after (created_time r) (created_time y)) pre'
    /\ (length pre'
        <= length pre
           + (if String.leb (created_time r) (created_time x) then 1 else 0))
       %nat.
Proof.
  induction pre as [|y pre IH]; intros Hpre; simpl.
  - destruct (newer r x) eqn:E.
    + exists [], (insert_sorted x post). simpl. repeat split; [constructor|].
      destruct (String.leb _ _); lia.
    + apply not_newer_not_after in E. exists [x], post.
      repeat split; [repeat constructor; exact E|].
      unfold not_after in E. rewrite E. simpl. lia.
  - inversion Hpre as [|? ? Hy Hrest]; subst.
    destruct (newer y x) eqn:E.
    + destruct (IH Hrest) as [pre' [post' [Heq [Hall Hlen]]]].
      exists (y :: pre'), post'. simpl. rewrite Heq.
      repeat split; [now constructor | lia].
    + apply not_newer_not_after in E.
      assert (Hx : not_after (created_time r) (created_time x))
        by (eapply not_after_trans; eassumption).
      exists (x :: y :: pre), post.
      repeat split; [now repeat constructor|].
      unfold not_after in Hx. rewrite Hx. simpl. lia.
Qed.

(** Where ORDER BY puts the row inserted last. *)
Lemma order_by_last (r : row) (rows : list row) :
  exists pre post,
    order_by_created_time_desc (rows ++ [r]) = (pre ++ r :: post)%list
    /\ Forall (fun y => not_after (created_time r) (created_time y)) pre
    /\ (length pre <= not_older_count (created_time r) rows)%nat.
Proof.
  unfold order_by_created_time_desc, not_older_count.
  rewrite fold_right_app. simpl.
  induction rows as [|x rows IH]; simpl.
  - exists [], []. split; [reflexivity|]. split; [constructor | simpl; lia].
  - destruct IH as [pre [post [Heq [Hall Hlen]]]]. rewrite Heq.
    destruct (insert_sorted_split x r pre post Hall)
      as [pre' [post' [Heq' [Hall' Hlen']]]].
    exists pre', post'. repeat split; trivial.
    destruct (String.leb (created_time r) (created_time x)); simpl; lia.
Qed.

Lemma In_firstn_middle {A : Type} (n : nat) (pre post : list A) (x : A) :
  (length pre < n)%nat -> In x (firstn n (pre ++ x :: post)).
Proof.
  revert n. induction pre as [|y pre IH]; intros [|n] H; simpl in *;
    try lia.
  - now left.
  - right. apply IH. lia.
Qed.




(** ** /api/import *)

Lemma imported_more (r : row) (rows : list row) (it : list (string * json))
  (detail : json) :
  imported rows it detail -> imported (r :: rows) it detail.
Proof.
  intros [[x [Hin H]] | H]; [left | now right].
  exists x. split; [now right | exact H].
Qed.

(** The loop over a list of dicts runs to its end. *)
Lemma import_items_tally (env : nat -> event)
  (dicts : list (list (string * json))) :
  forall (i : nat) (acc : tally) (db : database),
  exists t db' new_rows details,
    import_items env i (map JObj dicts) acc db = (Return t, db')
    /\ documents db' = (documents db ++ new_rows)%list
    /\ succ t = succ acc + Z.of_nat (length new_rows)
    /\ fail t = fail acc
                + (Z.of_nat (length dicts) - Z.of_nat (length new_rows))
    /\ results t = (results acc ++ details)%list
    /\ Forall2 (imported new_rows) dicts details.
Proof.
  induction dicts as [|it dicts IH]; intros i acc db;
    cbn [map import_items].
  - exists acc, db, [], []. rewrite !app_nil_r. simpl.
    repeat split; try lia. constructor.
  - unfold import_item.
    destruct (add_document_cases (env i) (get "doc_type" it)
                (get "identifier" it) (data_dict_of it) db)
      as [[new_id [E _]] | E]; rewrite E; clear E.
    + match goal with
      | |- context [import_items env (S i) _ ?a ?d] =>
          destruct (IH (S i) a d)
            as [t [db' [rows [details [Hrun [Hdocs [Hs [Hf [Hr Hd]]]]]]]]]
      end.
      set (r := mk_row new_id _ _ _ _) in *.
      exists t, db', (r :: rows),
        (JObj [("item", JObj it); ("status", JStr "ok");
               ("id", JNum new_id)] :: details).
      split; [exact Hrun|]. cbn [length succ fail results documents] in *.
      split; [now rewrite Hdocs, <- app_assoc|].
      split; [lia|]. split; [lia|].
      split; [now rewrite Hr, <- app_assoc|].
      constructor.
      * left. exists r. split; [now left|]. now repeat split.
      * eapply Forall2_impl; [|exact Hd]. intros. now apply imported_more.
    + match goal with
      | |- context [import_items env (S i) _ ?a ?d] =>
          destruct (IH (S i) a d)
            as [t [db' [rows [details [Hrun [Hdocs [Hs [Hf [Hr Hd]]]]]]]]]
      end.
      exists t, db', rows,
        (JObj [("item", JObj it); ("status", JStr "fail")] :: details).
      split; [exact Hrun|]. cbn [length succ fail results documents] in *.
      split; [exact Hdocs|].
      split; [lia|]. split; [lia|].
      split; [now rewrite Hr, <- app_assoc|].
      constructor; [now right | exact Hd].
Qed.

(** C1.  The code does not do what the claim says for an array that holds
    an item that is not an object.  For the body [[{...}, 5, {...}]] the
    first item is inserted, the second has no [get] and raises, the handler
    answers 500 with the error envelope instead of the summary, and the
    third item is never processed: the batch is aborted by one item. *)
Lemma non_object_item_aborts_import :
  let run := api_import
               (json_request (JArr [JObj zhang; JNum 5; JObj zhang]))
               at_noon empty in
  fst run = error_response 500 "'int' object has no attribute 'get'"
  /\ map id (documents (snd run)) = [1].
Proof. vm_compute. repeat split. Qed.

(** C8.  The code does not do what the claim says.  A request sent as JSON
    whose body does not parse is neither a JSON array nor an uploaded file;
    [get_json] raises, the handler's catch-all answers 500, not 400, and the
    message is the text of that exception.  And a shape that is accepted
    still lets the whole operation fail: the array [[5]] is answered 500.
    In both cases nothing is inserted. *)
Lemma import_fails_with_500 :
  api_import malformed_json_request at_noon empty
  = (error_response 500 "400 Bad Request", empty)
  /\ api_import (json_request (JArr [JNum 5])) at_noon empty
     = (error_response 500 "'int' object has no attribute 'get'", empty)
  /\ status_code (fst (api_import malformed_json_request at_noon empty))
     = 500.
Proof. vm_compute. repeat split. Qed.

(** ** Dictionaries *)

Section DictFacts.
Context {K V : Type} (eqb : K -> K -> bool).
Hypothesis eqb_eq : forall a b, eqb a b = true <-> a = b.

Lemma eqb_refl (k : K) : eqb k k = true.
Proof. now apply eqb_eq. Qed.

Lemma eqb_neq (a b : K) : a <> b -> eqb a b = false.
Proof.
  intros H. destruct (eqb a b) eqn:E; [|reflexivity].
  now apply eqb_eq in E.
Qed.

Lemma key_dec (a b : K) : {a = b} + {a <> b}.
Proof.
  destruct (eqb a b) eqn:E.
  - left. now apply eqb_eq.
  - right. intros ->. rewrite eqb_refl in E. discriminate.
Qed.

Lemma dict_set_In (k k' : K) (v v' : V) (d : list (K * V)) :
  In (k', v') (dict_set eqb k v d) -> (k' = k /\ v' = v) \/ In (k', v') d.
Proof.
  induction d as [|[k0 v0] d IH]; simpl.
  - intros [H|[]]. injection H as <- <-. now left.
  - destruct (eqb k k0) eqn:E; simpl.
    + apply eqb_eq in E. subst k0.
      intros [H|H]; [injection H as <- <-; now left | right; now right].
    + intros [H|H]; [right; now left|].
      destruct (IH H) as [Hk|Hin]; [now left | right; now right].
Qed.

Lemma lookup_dict_set_same (k : K) (v : V) (d : list (K * V)) :
  lookup eqb k (dict_set eqb k v d) = Some v.
Proof.
  induction d as [|[k0 v0] d IH]; simpl.
  - now rewrite eqb_refl.
  - destruct (eqb k k0) eqn:E; simpl; now rewrite E.
Qed.

Lemma lookup_dict_set_other (k k' : K) (v : V) (d : list (K * V)) :
  k' <> k -> lookup eqb k' (dict_set eqb k v d) = lookup eqb k' d.
Proof.
  intros Hne. induction d as [|[k0 v0] d IH]; simpl.
  - now rewrite eqb_neq.
  - destruct (eqb k k0) eqn:E; simpl.
    + apply eqb_eq in E. subst k0. now rewrite eqb_neq.
    + now rewrite IH.
Qed.

Lemma dict_of_In_from (pairs d0 : list (K * V)) (k : K) (v : V) :
  In (k, v) (fold_left (fun d kv => dict_set eqb (fst kv) (snd kv) d)
                       pairs d0) ->
  In (k, v) pairs \/ In (k, v) d0.
Proof.
  revert d0. induction pairs as [|[k1 v1] pairs IH]; intros d0; simpl.
  - now right.
  - intros H. destruct (IH _ H) as [Hin|Hin]; [left; now right|].
    apply dict_set_In in Hin. destruct Hin as [[-> ->]|Hin].
    + left. now left.
    + now right.
Qed.

Lemma lookup_fold_absent (pairs d0 : list (K * V)) (k : K) :
  ~ In k (map fst pairs) ->
  lookup eqb k (fold_left (fun d kv => dict_set eqb (fst kv) (snd kv) d)
                          pairs d0)
  = lookup eqb k d0.
Proof.
  revert d0. induction pairs as [|[k1 v1] pairs IH]; intros d0 Hk; simpl.
  - reflexivity.
  - simpl in Hk. rewrite IH by tauto.
    apply lookup_dict_set_other. intros ->. apply Hk. now left.
Qed.

Lemma lookup_fold_present (pairs d0 : list (K * V)) (k : K) :
  In k (map fst pairs) ->
  exists v,
    lookup eqb k (fold_left (fun d kv => dict_set eqb (fst kv) (snd kv) d)
                            pairs d0) = Some v
    /\ In (k, v) pairs.
Proof.
  revert d0. induction pairs as [|[k1 v1] pairs IH]; intros d0 Hk; simpl.
  - destruct Hk.
  - destruct (in_dec key_dec k (map fst pairs)) as [Hin|Hout].
    + destruct (IH (dict_set eqb k1 v1 d0) Hin) as [v [Hv Hp]].
      exists v. split; [exact Hv | now right].
    + simpl in Hk. destruct Hk as [<-|Hk]; [|contradiction].
      exists v1. rewrite lookup_fold_absent by exact Hout.
      split; [apply lookup_dict_set_same | now left].
Qed.

Lemma without_keys_In (reserved : list K) (d : list (K * V)) (k : K)
  (v : V) :
  In (k, v) (without_keys eqb reserved d)
  <-> In (k, v) d /\ ~ In k reserved.
Proof.
  unfold without_keys. rewrite filter_In. simpl.
  rewrite negb_true_iff. split; intros [Hin Hk]; split; trivial.
  - intros Hr. assert (existsb (eqb k) reserved = true); [|congruence].
    apply existsb_exists. exists k. split; [exact Hr | apply eqb_refl].
  - destruct (existsb (eqb k) reserved) eqn:E; [|reflexivity].
    apply existsb_exists in E. destruct E as [x [Hx Ex]].
    apply eqb_eq in Ex. subst x. contradiction.
Qed.

Lemma lookup_without_keys (reserved : list K) (d : list (K * V)) (k : K) :
  ~ In k reserved ->
  lookup eqb k (without_keys eqb reserved d) = lookup eqb k d.
Proof.
  intros Hk. induction d as [|[k0 v0] d IH]; simpl; [reflexivity|].
  destruct (existsb (eqb k0) reserved) eqn:E; simpl.
  - rewrite IH. destruct (eqb k k0) eqn:Ek; [|reflexivity].
    apply eqb_eq in Ek. subst k0.
    apply existsb_exists in E. destruct E as [x [Hx Ex]].
    apply eqb_eq in Ex. subst x. contradiction.
  - now rewrite IH.
Qed.
End DictFacts.

Lemma key_eqb_eq (a b : option string) : key_eqb a b = true <-> a = b.
Proof.
  destruct a as [x|], b as [y|]; simpl; try (split; congruence).
  rewrite String.eqb_eq. split; congruence.
Qed.

Lemma combine_maps {A B C D : Type} (f : A -> C) (g : B -> D) (l : list A)
  (l' : list B) :
  combine (map f l) (map g l')
  = map (fun p => (f (fst p), g (snd p))) (combine l l').
Proof.
  revert l'. induction l as [|x l IH]; intros [|y l']; simpl; trivial.
  now rewrite IH.
Qed.

Lemma map_fst_combine {A B : Type} (l : list A) (l' : list B) :
  length l = length l' -> map fst (combine l l') = l.
Proof.
  revert l'. induction l as [|x l IH]; intros [|y l'] H; simpl in *;
    try discriminate; trivial.
  f_equal. apply IH. now injection H.
Qed.

Lemma dict_reader_row_rectangular (fieldnames record : list string) :
  length record = length fieldnames ->
  dict_reader_row fieldnames record
  = dict_of key_eqb (combine (map Some fieldnames) (map JStr record)).
Proof.
  intros Hlen. unfold dict_reader_row.
  rewrite Hlen, Nat.ltb_irrefl, skipn_all. reflexivity.
Qed.

Lemma add_document_stores (e : event) (dt idn payload : json)
  (db : database) :
  stores payload db (snd (add_document e dt idn payload db)).
Proof.
  destruct (add_document_cases e dt idn payload db)
    as [[new_id [E _]] | E]; rewrite E; simpl; [right | now left].
  eexists. split; reflexivity.
Qed.

Lemma import_item_db (e : event) (it : list (string * json)) (acc : tally)
  (db : database) :
  snd (import_item e it acc db)
  = snd (add_document e (get "doc_type" it) (get "identifier" it)
                      (data_dict_of it) db).
Proof.
  unfold import_item.
  destruct (add_document _ _ _ _ _) as [[[|] new_id] db']; reflexivity.
Qed.

Lemma import_row_stores (e : event) (row : csv_row) (acc : tally)
  (db : database) :
  stores (json_of_csv
            (without_keys key_eqb [Some "doc_type"; Some "identifier"] row))
         db (snd (import_row e row acc db)).
Proof.
  unfold import_row.
  match goal with
  | |- context [add_document e ?dt ?idn ?payload db] =>
      pose proof (add_document_stores e dt idn payload db) as H;
      destruct (add_document e dt idn payload db) as [[[|] new_id] db']
  end; exact H.
Qed.

(** C9, as the code has it.  For a JSON item without an explicit data
    object the payload handed to the insert, and stored when the insert
    succeeds, holds exactly the item's key/value pairs whose key is neither
    [doc_type] nor [identifier].  For a CSV record with as many fields as
    the header the payload holds only fields named by a header column other
    than [doc_type] and [identifier], each with a field of the record under
    that column as a string, and every such column is present. *)
Theorem import_data_fields :
  (forall (it : list (string * json)) (e : event) (acc : tally)
          (db : database),
      has_key String.eqb "data" it && is_dict (get "data" it) = false ->
      exists d,
        data_dict_of it = JObj d
        /\ (forall k v,
               In (k, v) d
               <-> In (k, v) it /\ k <> "doc_type" /\ k <> "identifier")
        /\ stores (JObj d) db (snd (import_item e it acc db)))
  /\ (forall (fieldnames record : list string) (e : event) (acc : tally)
             (db : database),
         length record = length fieldnames ->
         let row := dict_reader_row fieldnames record in
         let d := without_keys key_eqb
                    [Some "doc_type"; Some "identifier"] row in
         (forall k v,
             In (k, v) d ->
             exists name s,
               k = Some name /\ v = JStr s
               /\ In (name, s) (combine fieldnames record)
               /\ name <> "doc_type" /\ name <> "identifier")
         /\ (forall name,
                In name fieldnames ->
                name <> "doc_type" -> name <> "identifier" ->
                exists s,
                  lookup key_eqb (Some name) d = Some (JStr s)
                  /\ In (name, s) (combine fieldnames record))
         /\ stores (json_of_csv d) db (snd (import_row e row acc db))).
Proof.
  split.
  - intros it e acc db Hdata.
    exists (without_keys String.eqb reserved_keys it).
    split; [unfold data_dict_of; now rewrite Hdata|]. split.
    + intros k v. rewrite (without_keys_In String.eqb String.eqb_eq).
      unfold reserved_keys. simpl. intuition.
    + rewrite import_item_db. unfold data_dict_of at 1. rewrite Hdata.
      apply add_document_stores.
  - intros fieldnames record e acc db Hlen row d.
    assert (Hrow : row = dict_of key_eqb
                           (combine (map Some fieldnames) (map JStr record)))
      by now apply dict_reader_row_rectangular.
    split; [|split].
    + intros k v Hin. subst d.
      apply (without_keys_In key_eqb key_eqb_eq) in Hin.
      destruct Hin as [Hin Hres]. rewrite Hrow in Hin.
      apply (dict_of_In_from key_eqb key_eqb_eq) in Hin.
      destruct Hin as [Hin|[]].
      rewrite combine_maps in Hin. apply in_map_iff in Hin.
      destruct Hin as [[name s] [Heq Hin]]. simpl in Heq.
      injection Heq as <- <-. exists name, s.
      repeat split; trivial; intros ->; apply Hres; simpl; tauto.
    + intros name Hname Hdt Hid. subst d.
      rewrite (lookup_without_keys key_eqb key_eqb_eq)
        by (simpl; intros [H|[H|[]]]; congruence).
      rewrite Hrow.
      destruct (lookup_fold_present key_eqb key_eqb_eq
                  (combine (map Some fieldnames) (map JStr record)) []
                  (Some name)) as [v [Hv Hin]].
      * rewrite map_fst_combine by (now rewrite !length_map).
        now apply in_map.
      * rewrite combine_maps in Hin. apply in_map_iff in Hin.
        destruct Hin as [[name' s] [Heq Hin]]. simpl in Heq.
        injection Heq as <- <-. exists s. split; [exact Hv | exact Hin].
    + apply import_row_stores.
Qed.

Lemma import_data_fields_witness :
  (exists d, data_dict_of zhang = JObj d
             /\ In ("name", JStr "张三") d
             /\ ~ In ("doc_type", JStr "student") d)
  /\ lookup key_eqb (Some "name")
       (without_keys key_eqb [Some "doc_type"; Some "identifier"]
          (dict_reader_row ["doc_type"; "name"] ["student"; "张三"]))
     = Some (JStr "张三").
Proof.
  destruct import_data_fields as [Hjson Hcsv]. split.
  - destruct (Hjson zhang noon (mk_tally 0 0 []) empty eq_refl)
      as [d [Hd [Hpairs _]]].
    exists d. split; [exact Hd|]. split.
    + apply Hpairs. split; [simpl; tauto|]. split; discriminate.
    + intros H. apply Hpairs in H. destruct H as [_ [H _]]. now apply H.
  - destruct (Hcsv ["doc_type"; "name"] ["student"; "张三"] noon
                (mk_tally 0 0 []) empty eq_refl) as [_ [Hcols _]].
    destruct (Hcols "name") as [s [Hs Hin]];
      [simpl; tauto | discriminate | discriminate |].
    rewrite Hs. destruct Hin as [H|[H|[]]]; [discriminate|].
    now injection H as <-.
Defined.

(** C9 as stated fails for a CSV record shorter than the header: the column
    it lacks is stored as null, not as a string. *)
Lemma short_record_stores_null :
  let run := api_import (csv_request short_record_csv) at_noon empty in
  status_code (fst run) = 200
  /\ map data (documents (snd run))
     = [json_dumps (JObj [("name", JStr "张三"); ("age", JNull)])].
Proof. vm_compute. repeat split. Qed.

(** ** /api/record *)

Lemma get_missing (k : string) (d : list (string * json)) :
  has_key String.eqb k d = false -> get k d = JNull.
Proof.
  unfold has_key, get. now destruct (lookup String.eqb k d).
Qed.




(** ** /api/chat *)

Lemma reply_on_client_error (post : string -> string -> outcome json)
  (user_input : string) (db_results : json) (context err : string) :
  (forall prompt message, post prompt message = Raise err) ->
  reply post user_input db_results context
  = Return (JStr (service_error_prefix ++ err)).
Proof.
  intros Hpost. unfold reply, chat_completion. rewrite Hpost. reflexivity.
Qed.

Lemma reply_on_unexpected_shape (post : string -> string -> outcome json)
  (user_input : string) (db_results : json) (context : string)
  (answer : json) :
  (forall prompt message, post prompt message = Return answer) ->
  error_in answer = Return false ->
  (forall content, first_content answer <> Return content) ->
  reply post user_input db_results context = Return (JStr parse_failure).
Proof.
  intros Hpost Herr Hshape. unfold reply, chat_completion.
  rewrite Hpost, Herr. simpl.
  destruct (first_content answer) as [content|exc]; [|reflexivity].
  now elim (Hshape content).
Qed.

Lemma chat_response (json_loads : string -> option json)
  (post : string -> string -> outcome json)
  (fields : list (string * json)) (user_msg time_iso : string) (e : event)
  (db : database) (text : json) :
  get_default "message" (JStr "") fields = JStr user_msg ->
  (forall db_results context,
      reply post user_msg db_results context = Return text) ->
  fst (chat json_loads post (JObj fields) time_iso e db)
  = Response 200 (chat_body text).
Proof.
  intros Hmsg Hreply. unfold chat. rewrite Hmsg.
  destruct (analyze user_msg =? "query")%string; rewrite Hreply;
    reflexivity.
Qed.

(** C2, as the code has it.  For a POST to /api/chat whose body is a JSON
    object with a text message (or none): if the completion call fails with
    the error text [err], the answer has HTTP status 200 and its [response]
    is "AI 服务错误：" followed by [err]; if the call returns a JSON value
    for which ["error" in res] is false and from which
    [choices[0].message.content] cannot be read, the answer has HTTP status
    200 and its [response] is the fixed text "AI 响应解析失败". *)
Theorem chat_reports_completion_failure
  (json_loads : string -> option json)
  (post : string -> string -> outcome json)
  (fields : list (string * json)) (user_msg time_iso : string) (e : event)
  (db : database) :
  get_default "message" (JStr "") fields = JStr user_msg ->
  (forall err,
      (forall prompt message, post prompt message = Raise err) ->
      fst (chat json_loads post (JObj fields) time_iso e db)
      = Response 200 (chat_body (JStr (service_error_prefix ++ err))))
  /\ (forall answer,
        (forall prompt message, post prompt message = Return answer) ->
        error_in answer = Return false ->
        (forall content, first_content answer <> Return content) ->
        fst (chat json_loads post (JObj fields) time_iso e db)
        = Response 200 (chat_body (JStr parse_failure))).
Proof.
  intros Hmsg. split.
  - intros err Hpost. apply chat_response with (user_msg := user_msg);
      [exact Hmsg|].
    intros. now apply reply_on_client_error.
  - intros answer Hpost Herr Hshape.
    apply chat_response with (user_msg := user_msg); [exact Hmsg|].
    intros. now apply reply_on_unexpected_shape with (answer := answer).
Qed.

Lemma chat_reports_completion_failure_witness :
  fst (chat (decoder_of []) timed_out ask_zhang "2024-01-01T12:00:00" noon
            empty)
  = Response 200 (chat_body (JStr (service_error_prefix ++ "timed out"))).
Proof.
  destruct (chat_reports_completion_failure (decoder_of []) timed_out
              [("message", JStr "帮我查询张三的记录")]
              "帮我查询张三的记录" "2024-01-01T12:00:00" noon empty eq_refl)
    as [Hfail _].
  apply Hfail. reflexivity.
Defined.

(** C2 as stated fails.  The error text is not fixed: it ends with the
    message of the failure, so two failures give two answers.  And a
    completion answer of an unexpected shape can leave the handler as an
    exception: for the answer [null] the test ["error" in res] raises, and
    the request ends with status 500. *)
Lemma chat_error_text_varies :
  let on_timeout :=
    fst (chat (decoder_of []) timed_out ask_zhang "2024-01-01T12:00:00"
              noon empty) in
  let on_refusal :=
    fst (chat (decoder_of []) refused ask_zhang "2024-01-01T12:00:00"
              noon empty) in
  let on_null :=
    fst (chat (decoder_of []) answers_null ask_zhang "2024-01-01T12:00:00"
              noon empty) in
  on_timeout = Response 200 (chat_body (JStr "AI 服务错误：timed out"))
  /\ on_refusal
     = Response 200 (chat_body (JStr "AI 服务错误：connection refused"))
  /\ on_timeout <> on_refusal
  /\ on_null = Unhandled "argument of type 'NoneType' is not iterable"
  /\ status_code on_null = 500.
Proof. vm_compute. repeat split. discriminate. Qed.

(* ================================================================== *)
(** * Further properties of main.py *)
(* ================================================================== *)

(** ** add_document: when it succeeds *)



(** ** The table only grows *)

Lemma StronglySorted_app {A : Type} (R : A -> A -> Prop) (l1 l2 : list A) :
  StronglySorted R l1 -> StronglySorted R l2 ->
  Forall (fun y => Forall (fun x => R x y) l1) l2 ->
  StronglySorted R (l1 ++ l2).
Proof.
  intros S1 S2 H. induction S1 as [|x l1 _ IH Hx]; simpl; trivial.
  constructor.
  - apply IH. eapply Forall_impl; [|exact H]. simpl. intros y Hy.
    now inversion Hy.
  - apply Forall_app. split; [exact Hx|].
    eapply Forall_impl; [|exact H]. simpl. intros y Hy. now inversion Hy.
Qed.

Lemma appended_refl (db : database) : appended db db.
Proof.
  exists []. rewrite app_nil_r. repeat split; constructor.
Qed.

Lemma appended_trans (db db1 db2 : database) :
  appended db db1 -> appended db1 db2 -> appended db db2.
Proof.
  intros [rows1 [E1 [S1 F1]]] [rows2 [E2 [S2 F2]]].
  exists (rows1 ++ rows2)%list. split; [|split].
  - now rewrite E2, E1, app_assoc.
  - rewrite map_app. apply StronglySorted_app; trivial.
    apply Forall_forall. intros n Hn. apply in_map_iff in Hn.
    destruct Hn as [x [<- Hx]].
    rewrite Forall_forall in F2. specialize (F2 x Hx).
    apply Forall_forall. intros m Hm. apply in_map_iff in Hm.
    destruct Hm as [y [<- Hy]].
    rewrite Forall_forall in F2. apply F2. rewrite E1.
    apply in_or_app. now right.
  - apply Forall_app. split; [exact F1|].
    eapply Forall_impl; [|exact F2]. simpl. intros x Hx.
    rewrite Forall_forall in *. intros old Hold. apply Hx.
    rewrite E1. apply in_or_app. now left.
Qed.

Lemma add_document_appended (e : event) (dt idn payload : json)
  (db : database) :
  appended db (snd (add_document e dt idn payload db)).
Proof.
  destruct (add_document_cases e dt idn payload db)
    as [[new_id [E Hold]] | E]; rewrite E; simpl;
    [|apply appended_refl].
  eexists. split; [reflexivity|]. simpl.
  split; repeat constructor. exact Hold.
Qed.

Lemma import_items_appended (env : nat -> event) (items : list json) :
  forall (i : nat) (acc : tally) (db : database),
    appended db (snd (import_items env i items acc db)).
Proof.
  induction items as [|it items IH]; intros i acc db; simpl.
  - apply appended_refl.
  - destruct it as [| | | | |fields]; simpl; try apply appended_refl.
    destruct (import_item (env i) fields acc db) as [acc' db'] eqn:E.
    apply appended_trans with (db1 := db'); [|apply IH].
    replace db' with (snd (import_item (env i) fields acc db))
      by now rewrite E.
    rewrite import_item_db. apply add_document_appended.
Qed.

Lemma import_row_appended (e : event) (row : csv_row) (acc : tally)
  (db : database) :
  appended db (snd (import_row e row acc db)).
Proof.
  unfold import_row.
  match goal with
  | |- context [add_document e ?dt ?idn ?payload db] =>
      pose proof (add_document_appended e dt idn payload db) as H;
      destruct (add_document e dt idn payload db) as [[[|] new_id] db']
  end; exact H.
Qed.

Lemma import_rows_appended (env : nat -> event)
  (rows : list (outcome csv_row)) :
  forall (i : nat) (acc : tally) (db : database),
    appended db (snd (import_rows env i rows acc db)).
Proof.
  induction rows as [|[row|exc] rows IH]; intros i acc db; simpl.
  - apply appended_refl.
  - destruct (import_row (env i) row acc db) as [acc' db'] eqn:E.
    apply appended_trans with (db1 := db'); [|apply IH].
    replace db' with (snd (import_row (env i) row acc db))
      by now rewrite E.
    apply import_row_appended.
  - apply appended_refl.
Qed.

Lemma api_import_appended (req : request) (env : nat -> event)
  (db : database) :
  appended db (snd (api_import req env db)).
Proof.
  unfold api_import. destruct (is_json req).
  - destruct (get_json req) as [v|exc]; [|apply appended_refl].
    destruct v as [| | | |items|]; try apply appended_refl.
    pose proof (import_items_appended env items 0%nat (mk_tally 0 0 []) db)
      as H.
    destruct (import_items env 0 items (mk_tally 0 0 []) db)
      as [[t|exc] db']; exact H.
  - destruct (lookup String.eqb "file" (files req)) as [[stream|exc]|];
      try apply appended_refl.
    pose proof (import_rows_appended env (dict_reader stream) 0%nat
                  (mk_tally 0 0 []) db) as H.
    destruct (import_rows env 0 (dict_reader stream) (mk_tally 0 0 []) db)
      as [[t|exc] db']; [|exact H].
    now destruct (forallb sortable (rows_of (dict_reader stream))).
Qed.

Lemma api_record_appended (body : json) (time_iso : string) (e : event)
  (db : database) :
  appended db (snd (api_record body time_iso e db)).
Proof.
  unfold api_record. destruct body as [| | | | |data];
    try apply appended_refl.
  match goal with
  | |- context [add_document e ?dt ?idn ?payload db] =>
      pose proof (add_document_appended e dt idn payload db) as H;
      destruct (add_document e dt idn payload db) as [[[|] new_id] db']
  end; exact H.
Qed.

Lemma chat_appended (json_loads : string -> option json)
  (post : string -> string -> outcome json) (body : json)
  (time_iso : string) (e : event) (db : database) :
  appended db (snd (chat json_loads post body time_iso e db)).
Proof.
  unfold chat. destruct body as [| | | | |fields];
    try apply appended_refl.
  destruct (get_default "message" (JStr "") fields) as [| | |user_msg| |];
    try apply appended_refl.
  destruct (analyze user_msg =? "query")%string.
  - destruct (reply _ _ _ _); apply appended_refl.
  - destruct (reply _ _ _ _); apply add_document_appended.
Qed.

Lemma appended_ids_increasing (db db' : database) :
  appended db db' -> ids_increasing db -> ids_increasing db'.
Proof.
  unfold ids_increasing. intros [rows [E [S F]]] Hdb.
  rewrite E, map_app. apply StronglySorted_app; trivial.
  apply Forall_forall. intros n Hn. apply in_map_iff in Hn.
  destruct Hn as [r [<- Hr]].
  rewrite Forall_forall in F. specialize (F r Hr).
  apply Forall_forall. intros m Hm. apply in_map_iff in Hm.
  destruct Hm as [old [<- Hold]].
  rewrite Forall_forall in F. now apply F.
Qed.

(** X2.  The table is an append-only log.  Whatever the request and the
    environment, and also when the request ends with an error, the table
    after [api_record], [api_import] or [chat] is the table before it
    followed by new rows: no handler changes or removes a row.  The ids of
    the new rows are strictly increasing and larger than every id that was
    there, so a table whose ids increase in rowid order keeps that form. *)
Theorem handlers_only_append (json_loads : string -> option json)
  (post : string -> string -> outcome json) (body : json)
  (req : request) (time_iso : string) (e : event) (env : nat -> event)
  (db : database) :
  Forall (fun db' =>
            appended db db' /\ (ids_increasing db -> ids_increasing db'))
         [snd (api_record body time_iso e db);
          snd (api_import req env db);
          snd (chat json_loads post body time_iso e db)].
Proof.
  repeat constructor;
    try (now apply appended_ids_increasing;
         first [ apply api_record_appended
               | apply api_import_appended
               | apply chat_appended ]).
  - apply api_record_appended.
  - apply api_import_appended.
  - apply chat_appended.
Qed.

(** ** query_documents: what it finds *)

Lemma where_clause_wanted (search_text doc_type : option string) (r : row) :
  where_clause (given doc_type)
               (match given search_text with
                | Some s => Some ("%" ++ s ++ "%")
                | None => None
                end) r = true
  <-> wanted search_text doc_type r.
Proof.
  unfold where_clause, wanted. rewrite andb_true_iff.
  destruct (given doc_type) as [t|], (given search_text) as [s|].
  all: split; [intros [Ht Hs]; split | intros [Ht Hs]; split].
  all: try reflexivity; try (intros x Hx; discriminate Hx).
  all: try (intros x Hx; injection Hx as <-).
  all: try exact Hs; try (now apply Hs).
  all: try (destruct (Sqlite.doc_type r) as [t'|]; [|discriminate];
            now apply String.eqb_eq in Ht; subst).
  all: rewrite (Ht t eq_refl); apply String.eqb_refl.
Qed.

Lemma insert_sorted_length (r : row) (l : list row) :
  length (insert_sorted r l) = S (length l).
Proof.
  induction l as [|x l IH]; simpl; trivial.
  destruct (newer x r); simpl; now rewrite ?IH.
Qed.

Lemma order_by_length (l : list row) :
  length (order_by_created_time_desc l) = length l.
Proof.
  induction l as [|x l IH]; simpl; trivial.
  now rewrite insert_sorted_length, IH.
Qed.

Lemma limit_rows_all (limit : Z) (l : list row) :
  limit < 0 \/ Z.of_nat (length l) <= limit -> limit_rows limit l = l.
Proof.
  unfold limit_rows. intros H.
  destruct (Z.ltb_spec limit 0); trivial.
  apply firstn_all2. lia.
Qed.

Lemma select_complete (tp lp : option string) (limit : Z) (db : database)
  (r : row) :
  limit < 0
  \/ Z.of_nat (length (filter (where_clause tp lp) (documents db))) <= limit ->
  In r (documents db) -> where_clause tp lp r = true ->
  In r (select tp lp limit db).
Proof.
  intros Hlimit Hin Hw. unfold select.
  rewrite limit_rows_all by now rewrite order_by_length.
  apply order_by_In, filter_In. now split.
Qed.



(** ** /api/students *)

(** X4.  /api/students answers with status 200 and a list of documents
    that all have [doc_type] "student", newest first, at most 200 of them;
    when the table holds at most 200 rows of [doc_type] "student", every
    one of them is in the list. *)
Theorem api_students_lists_students (json_loads : string -> option json)
  (db : database) :
  exists docs,
    api_students json_loads db
    = Response 200 (JObj [("status", JStr "success");
                          ("students", JArr (map document_json docs))])
    /\ Forall (fun d => doc_doc_type d = Some "student") docs
    /\ (length docs <= 200)%nat
    /\ StronglySorted
         (fun a b => not_after (doc_created_time b) (doc_created_time a))
         docs
    /\ ((length (wanted_rows None (Some "student") db) <= 200)%nat ->
        forall r, In r (documents db) ->
                  Sqlite.doc_type r = Some "student" ->
                  exists d, In d docs /\ presents json_loads r d).
Proof.
  exists (query_documents json_loads None (Some "student") 200 db).
  split; [reflexivity|]. unfold query_documents.
  change (given (Some "student")) with (Some "student").
  change (given None) with (@None string). cbv iota.
  split; [|split; [|split]].
  - apply Forall_forall. intros d Hd. apply in_map_iff in Hd.
    destruct Hd as [r [<- Hr]]. apply select_In in Hr.
    destruct Hr as [_ Hw]. unfold where_clause in Hw. simpl.
    destruct (Sqlite.doc_type r) as [t|]; [|discriminate].
    rewrite andb_true_r in Hw. now apply String.eqb_eq in Hw; subst.
  - rewrite length_map. unfold select.
    match goal with
    | |- context [limit_rows 200 ?l] =>
        destruct (limit_rows_length 200 l); lia
    end.
  - apply StronglySorted_map with (f := build_document json_loads)
      (R := fun a b => not_after (doc_created_time b) (doc_created_time a)).
    simpl. apply select_newest_first.
  - intros Hcount r Hin Htype.
    exists (build_document json_loads r).
    split; [|apply build_document_presents].
    apply in_map. apply select_complete; trivial.
    + right.
      change (wanted_rows None (Some "student") db)
        with (filter (where_clause (Some "student") None) (documents db))
        in Hcount.
      lia.
    + unfold where_clause. rewrite Htype. reflexivity.
Qed.

(** ** Records and the list of students *)

Lemma filter_none {A : Type} (p : A -> bool) (l : list A) :
  Forall (fun x => p x = false) l -> filter p l = [].
Proof.
  induction 1 as [|x l Hx _ IH]; simpl; trivial. now rewrite Hx.
Qed.

Lemma select_unaffected (tp lp : option string) (limit : Z)
  (db db' : database) (rows : list row) :
  documents db' = (documents db ++ rows)%list ->
  Forall (fun r => where_clause tp lp r = false) rows ->
  select tp lp limit db' = select tp lp limit db.
Proof.
  intros E H. unfold select.
  now rewrite E, filter_app, (filter_none _ rows H), app_nil_r.
Qed.

Lemma add_record_not_student (e : event) (idn payload : json)
  (db : database) (limit : Z) :
  select (Some "student") None limit
         (snd (add_document e (JStr "record") idn payload db))
  = select (Some "student") None limit db.
Proof.
  destruct (add_document_cases e (JStr "record") idn payload db)
    as [[new_id [E _]] | E]; rewrite E; simpl; trivial.
  eapply select_unaffected; [reflexivity|].
  repeat constructor.
Qed.

(** X5.  What /api/record and /api/chat store has [doc_type] "record", so
    neither request changes the answer of /api/students. *)
Theorem records_are_not_students (json_loads loads : string -> option json)
  (post : string -> string -> outcome json) (body : json)
  (time_iso : string) (e : event) (db : database) :
  api_students json_loads (snd (api_record body time_iso e db))
  = api_students json_loads db
  /\ api_students json_loads (snd (chat loads post body time_iso e db))
     = api_students json_loads db.
Proof.
  unfold api_students, query_documents.
  change (given (Some "student")) with (Some "student").
  change (given None) with (@None string). cbv iota. split.
  - unfold api_record. destruct body as [| | | | |data]; trivial.
    match goal with
    | |- context [add_document e ?dt ?idn ?payload db] =>
        pose proof (add_record_not_student e idn payload db 200) as H;
        destruct (add_document e dt idn payload db) as [[[|] new_id] db']
    end; simpl in *; now rewrite H.
  - unfold chat. destruct body as [| | | | |fields]; trivial.
    destruct (get_default "message" (JStr "") fields) as [| | |user_msg| |];
      trivial.
    destruct (analyze user_msg =? "query")%string.
    + now destruct (reply _ _ _ _).
    + destruct (reply _ _ _ _); simpl; now rewrite add_record_not_student.
Qed.

(** ** extract_name *)

Lemma append_assoc (a b c : string) :
  ((a ++ b) ++ c = a ++ (b ++ c))%string.
Proof. induction a as [|x a IH]; simpl; [reflexivity | now rewrite IH]. Qed.

Lemma append_empty (a : string) : (a ++ "")%string = a.
Proof. induction a as [|x a IH]; simpl; [reflexivity | now rewrite IH]. Qed.

Lemma flatten_app (l1 l2 : list string) :
  flatten (l1 ++ l2) = (flatten l1 ++ flatten l2)%string.
Proof.
  induction l1 as [|c l1 IH]; simpl; trivial.
  now rewrite IH, append_assoc.
Qed.

Lemma flatten_singletons (k : string) : flatten (singletons k) = k.
Proof. induction k as [|c k IH]; simpl; [reflexivity | now rewrite IH]. Qed.

Lemma utf8_split_flatten (s : string) :
  (fst (utf8_split s) ++ flatten (snd (utf8_split s)))%string = s.
Proof.
  induction s as [|c s IH]; simpl; trivial.
  destruct (utf8_split s) as [k chars]. simpl in IH.
  destruct (is_continuation c); [simpl; now rewrite IH|].
  destruct (is_lead c); simpl.
  - now rewrite IH.
  - now rewrite flatten_app, flatten_singletons, IH.
Qed.

(** The characters of a text, put together again, are the text. *)
Lemma utf8_chars_flatten (s : string) : flatten (utf8_chars s) = s.
Proof.
  unfold utf8_chars. pose proof (utf8_split_flatten s) as H.
  destruct (utf8_split s) as [k chars]. simpl in H.
  now rewrite flatten_app, flatten_singletons.
Qed.

(** Where [first_name] finds its match. *)
Lemma first_name_match (chars : list string) (name : string) :
  first_name chars = Some name ->
  exists pre c c1 tail post,
    chars = (pre ++ c :: c1 :: tail ++ post)%list
    /\ is_surname c = true /\ is_han c1 = true
    /\ name = (c ++ c1 ++ flatten tail)%string
    /\ (tail = [] \/ exists c2, tail = [c2] /\ is_han c2 = true).
Proof.
  induction chars as [|c chars IH]; simpl; [discriminate|].
  destruct chars as [|c1 rest]; [discriminate|].
  destruct (is_surname c && is_han c1) eqn:E.
  - apply andb_true_iff in E. destruct E as [Hc Hc1].
    destruct rest as [|c2 rest].
    + intros H. injection H as <-.
      exists [], c, c1, [], [].
      split; [reflexivity|]. split; [exact Hc|]. split; [exact Hc1|].
      split; [simpl; now rewrite append_empty | now left].
    + destruct (is_han c2) eqn:E2; intros H; injection H as <-.
      * exists [], c, c1, [c2], rest.
        split; [reflexivity|]. split; [exact Hc|]. split; [exact Hc1|].
        split; [simpl; now rewrite append_empty | right; now exists c2].
      * exists [], c, c1, [], (c2 :: rest).
        split; [reflexivity|]. split; [exact Hc|]. split; [exact Hc1|].
        split; [simpl; now rewrite append_empty | now left].
  - intros H. destruct (IH H) as [pre [x [x1 [tail [post Hm]]]]].
    destruct Hm as [Heq Hrest].
    exists (c :: pre), x, x1, tail, post. split; [|exact Hrest].
    simpl. now rewrite Heq.
Qed.

(** X8.  A name that [extract_name] returns occurs in the text, and it is a
    surname character followed by one or two characters of the range
    U+4E00..U+9FA5. *)
Theorem extract_name_sound (text name : string) :
  extract_name text = Some name ->
  Substring name text
  /\ exists c c1 c2,
       name = (c ++ c1 ++ c2)%string
       /\ is_surname c = true /\ is_han c1 = true
       /\ (c2 = ""%string \/ is_han c2 = true).
Proof.
  unfold extract_name. intros H.
  destruct (first_name_match _ _ H)
    as [pre [c [c1 [tail [post [Heq [Hc [Hc1 [Hname Htail]]]]]]]]].
  split.
  - exists (flatten pre), (flatten post).
    rewrite <- (utf8_chars_flatten text), Heq, Hname.
    rewrite flatten_app. simpl. rewrite flatten_app.
    now rewrite !append_assoc.
  - exists c, c1, (flatten tail). repeat split; trivial.
    destruct Htail as [-> | [c2 [-> Hc2]]]; [now left|].
    right. simpl. now rewrite append_empty.
Qed.

Lemma extract_name_sound_witness :
  Substring "张三的" "帮我查询张三的记录".
Proof.
  destruct (extract_name_sound "帮我查询张三的记录" "张三的" eq_refl)
    as [Hsub _].
  exact Hsub.
Defined.

(** X9.  [extract_name] returns [None] exactly when nowhere in the text a
    surname character is directly followed by a character of the range
    U+4E00..U+9FA5. *)
Theorem extract_name_finds_nothing (text : string) :
  extract_name text = None
  <-> forall pre c c1 post,
        utf8_chars text = (pre ++ c :: c1 :: post)%list ->
        is_surname c && is_han c1 = false.
Proof.
  unfold extract_name. generalize (utf8_chars text). intros chars.
  induction chars as [|c chars IH].
  - split; [|reflexivity]. intros _ [|x pre] c c1 post H; discriminate.
  - destruct chars as [|c1 rest].
    + split; [|reflexivity].
      intros _ [|x [|y pre]] a a1 post H; discriminate.
    + cbn [first_name] in *.
      destruct (is_surname c && is_han c1) eqn:E.
      * split.
        -- destruct rest as [|c2 rest]; [discriminate|].
           destruct (is_han c2); discriminate.
        -- intros H. specialize (H [] c c1 rest eq_refl). congruence.
      * rewrite IH. split.
        -- intros H [|x pre] a a1 post Heq.
           ++ simpl in Heq. injection Heq as <- <- _. exact E.
           ++ simpl in Heq. injection Heq as _ Heq. now apply (H pre a a1 post).
        -- intros H pre a a1 post Heq. apply (H (c :: pre) a a1 post).
           simpl. now rewrite Heq.
Qed.

(** ** Searching for an extracted name *)

Lemma singletons_character (k : string) : Forall character (singletons k).
Proof. induction k as [|c k IH]; simpl; constructor; trivial. reflexivity. Qed.

Lemma utf8_split_character (s : string) :
  all_continuation (fst (utf8_split s)) = true
  /\ Forall character (snd (utf8_split s)).
Proof.
  induction s as [|c s [Hk Hchars]]; simpl; [now split|].
  destruct (utf8_split s) as [k chars]. simpl in *.
  destruct (is_continuation c) eqn:Ec; simpl; [now rewrite Ec|].
  destruct (is_lead c); simpl; split; trivial.
  - now constructor.
  - constructor; [reflexivity|].
    apply Forall_app. split; [apply singletons_character | exact Hchars].
Qed.

Lemma utf8_chars_character (s : string) : Forall character (utf8_chars s).
Proof.
  unfold utf8_chars. destruct (utf8_split_character s) as [_ H].
  destruct (utf8_split s) as [k chars]. simpl in H.
  apply Forall_app. split; [apply singletons_character | exact H].
Qed.

Lemma lead_not_continuation (b : ascii) :
  is_lead b = true -> is_continuation b = false.
Proof.
  unfold is_lead, is_continuation. intros H.
  apply N.leb_le in H. apply andb_false_iff. right.
  apply N.ltb_ge. exact H.
Qed.

Lemma is_han_three_bytes (ch : string) :
  character ch -> is_han ch = true -> three_bytes ch.
Proof.
  unfold is_han, code_point3. intros Hch Hhan.
  destruct ch as [|b0 [|b1 [|b2 [|b3 rest]]]]; try discriminate.
  destruct ((224 <=? N_of_ascii b0) && (N_of_ascii b0 <? 240))%N eqn:E;
    [|discriminate].
  simpl in Hch. apply andb_true_iff in Hch. destruct Hch as [H1 H2].
  apply andb_true_iff in H2. destruct H2 as [H2 _].
  exists b0, b1, b2. repeat split; trivial.
  apply andb_true_iff in E. destruct E as [E _].
  unfold is_lead. apply N.leb_le in E. apply N.leb_le. lia.
Qed.

Lemma is_surname_three_bytes (ch : string) :
  is_surname ch = true -> three_bytes ch.
Proof.
  unfold is_surname. intros H. apply existsb_exists in H.
  destruct H as [x [Hx E]]. apply String.eqb_eq in E. subst x.
  unfold surnames in Hx. simpl in Hx.
  repeat (destruct Hx as [<- | Hx];
          [do 3 eexists; repeat split; reflexivity|]).
  destruct Hx.
Qed.

Lemma utf8_split_three_bytes (ch s : string) :
  three_bytes ch -> fst (utf8_split s) = ""%string ->
  utf8_split (ch ++ s) = (""%string, ch :: snd (utf8_split s)).
Proof.
  intros [b0 [b1 [b2 [-> [H0 [H1 H2]]]]]] Hs. simpl.
  destruct (utf8_split s) as [k chars]. simpl in Hs. subst k.
  now rewrite H2, H1, (lead_not_continuation b0 H0), H0.
Qed.

(** The characters of a run of three-byte characters are these. *)
Lemma utf8_chars_three_bytes (chars : list string) :
  Forall three_bytes chars -> utf8_split (flatten chars) = (""%string, chars).
Proof.
  induction 1 as [|ch chars Hch _ IH]; simpl; [reflexivity|].
  rewrite (utf8_split_three_bytes ch (flatten chars) Hch); now rewrite IH.
Qed.

Lemma like_char_three_bytes (p c : string) :
  three_bytes p -> (like_char p c = true <-> p = c).
Proof.
  intros [b0 [b1 [b2 [-> _]]]]. unfold like_char.
  rewrite orb_true_iff, String.eqb_eq. split; [|now left].
  intros [H|H]; [exact H | discriminate].
Qed.

Lemma run_three_bytes (needle run : list string) :
  Forall three_bytes needle ->
  (Forall2 (fun p c => like_char p c = true) needle run <-> run = needle).
Proof.
  intros Hn. revert run.
  induction Hn as [|p needle Hp _ IH]; intros run; split.
  - now inversion 1.
  - intros ->. constructor.
  - inversion 1 as [|? c ? run' Hpc Hrest]; subst.
    apply (like_char_three_bytes p c Hp) in Hpc. subst c.
    f_equal. now apply IH.
  - intros ->. constructor; [now apply like_char_three_bytes|].
    now apply IH.
Qed.

Lemma three_bytes_wildcard_free (chars : list string) :
  Forall three_bytes chars -> wildcard_free chars.
Proof.
  unfold wildcard_free. apply Forall_impl.
  intros ch [b0 [b1 [b2 [-> _]]]]. split; discriminate.
Qed.

Lemma is_han_not_surrogate (ch : string) :
  is_han ch = true -> is_surrogate ch = false.
Proof.
  unfold is_han, code_point3, is_surrogate.
  destruct ch as [|b0 [|b1 [|b2 [|b3 rest]]]]; try discriminate.
  destruct ((224 <=? N_of_ascii b0) && (N_of_ascii b0 <? 240))%N;
    [|discriminate].
  intros H. apply andb_true_iff in H. destruct H as [_ H].
  apply N.leb_le in H.
  destruct (N.eqb_spec (N_of_ascii b0) 237) as [E|E]; [|reflexivity].
  rewrite E in H. lia.
Qed.

Lemma is_surname_not_surrogate (ch : string) :
  is_surname ch = true -> is_surrogate ch = false.
Proof.
  unfold is_surname. intros H. apply existsb_exists in H.
  destruct H as [x [Hx E]]. apply String.eqb_eq in E. subst x.
  unfold surnames in Hx. simpl in Hx.
  repeat (destruct Hx as [<- | Hx]; [reflexivity|]).
  destruct Hx.
Qed.

(** An extracted name is a run of two or three three-byte characters, none
    of them a surrogate. *)
Lemma extracted_name_chars (text name : string) :
  extract_name text = Some name ->
  exists chars,
    chars <> [] /\ Forall three_bytes chars /\ name = flatten chars
    /\ Forall (fun ch => is_surrogate ch = false) chars.
Proof.
  unfold extract_name. intros H.
  destruct (first_name_match _ _ H)
    as [pre [c [c1 [tail [post [Heq [Hc [Hc1 [Hname Htail]]]]]]]]].
  pose proof (utf8_chars_character text) as Hchars.
  rewrite Heq in Hchars. apply Forall_app in Hchars.
  destruct Hchars as [_ Hchars].
  inversion Hchars as [|? ? _ Hrest]; subst.
  inversion Hrest as [|? ? Hch1 Hrest']; subst.
  apply Forall_app in Hrest'. destruct Hrest' as [Htailch _].
  exists (c :: c1 :: tail). split; [discriminate|].
  split; [|split; [reflexivity|]].
  - constructor; [now apply is_surname_three_bytes|].
    constructor; [now apply is_han_three_bytes|].
    destruct Htail as [-> | [c2 [-> Hc2]]]; constructor; [|constructor].
    inversion Htailch; subst. now apply is_han_three_bytes.
  - constructor; [now apply is_surname_not_surrogate|].
    constructor; [now apply is_han_not_surrogate|].
    destruct Htail as [-> | [c2 [-> Hc2]]]; constructor; [|constructor].
    now apply is_han_not_surrogate.
Qed.

Lemma three_bytes_chars (chars : list string) :
  Forall three_bytes chars -> utf8_chars (flatten chars) = chars.
Proof.
  intros H. unfold utf8_chars. now rewrite (utf8_chars_three_bytes _ H).
Qed.

(** An extracted name can be encoded, and has no NUL. *)
Lemma extracted_name_encodable (text name : string) :
  extract_name text = Some name -> encodable name = true.
Proof.
  intros H.
  destruct (extracted_name_chars _ _ H) as [chars [_ [Hthree [-> Hsur]]]].
  unfold encodable. rewrite (three_bytes_chars _ Hthree).
  apply forallb_forall. intros ch Hch.
  rewrite Forall_forall in Hsur. now rewrite (Hsur ch Hch).
Qed.

Lemma c_text_three_bytes (chars : list string) :
  Forall three_bytes chars -> c_text (flatten chars) = flatten chars.
Proof.
  induction 1 as [|ch chars [b0 [b1 [b2 [-> [H0 [H1 H2]]]]]] _ IH];
    [reflexivity|].
  unfold is_lead in H0. unfold is_continuation in H1, H2.
  apply N.leb_le in H0.
  apply andb_true_iff in H1, H2. destruct H1 as [H1 _], H2 as [H2 _].
  apply N.leb_le in H1, H2.
  cbn [flatten append c_text].
  destruct (N.eqb_spec (N_of_ascii b0) 0); [lia|].
  destruct (N.eqb_spec (N_of_ascii b1) 0); [lia|].
  destruct (N.eqb_spec (N_of_ascii b2) 0); [lia|].
  now rewrite IH.
Qed.

(** X10.  The search that [chat] runs for an extracted name is exact: the
    stored payload of a row passes [data LIKE '%name%'] exactly when the
    characters of the name occur as a run in the payload as LIKE reads it,
    that is, up to its first NUL; for a payload without a NUL, exactly when
    they occur as a run in the payload.  (An extracted name has neither
    ASCII letters nor the wildcards [%] and [_], and no NUL.) *)
Theorem name_search_is_exact (text name payload : string) :
  extract_name text = Some name ->
  (like payload ("%" ++ name ++ "%") = true
   <-> exists pre post,
         utf8_chars (c_text payload) = (pre ++ utf8_chars name ++ post)%list)
  /\ (c_text payload = payload ->
      like payload ("%" ++ name ++ "%") = true
      <-> exists pre post,
            utf8_chars payload = (pre ++ utf8_chars name ++ post)%list).
Proof.
  intros H.
  destruct (extracted_name_chars _ _ H) as [chars [_ [Hthree [-> _]]]].
  pose proof (three_bytes_chars _ Hthree) as Hname.
  assert (Hgen : like payload ("%" ++ flatten chars ++ "%") = true
                 <-> exists pre post,
                       utf8_chars (c_text payload)
                       = (pre ++ utf8_chars (flatten chars) ++ post)%list).
  { rewrite like_occurs;
      [| rewrite Hname; now apply three_bytes_wildcard_free
       | now apply c_text_three_bytes].
    rewrite Hname. unfold occurs_nocase. split.
    - intros [p [run [q [Hp Hrun]]]].
      apply (run_three_bytes _ _ Hthree) in Hrun. subst run.
      now exists p, q.
    - intros [p [q Hp]]. exists p, chars, q.
      split; [exact Hp|]. now apply run_three_bytes. }
  split; [exact Hgen|].
  intros Hnul. now rewrite Hnul in Hgen.
Qed.

Lemma name_search_is_exact_witness :
  like "{name: 张三的}" "%张三的%" = true.
Proof.
  destruct (name_search_is_exact "帮我查询张三的记录" "张三的"
              "{name: 张三的}" eq_refl) as [_ Hexact].
  apply Hexact; [reflexivity|].
  exists ["{"; "n"; "a"; "m"; "e"; ":"; " "], ["}"]. reflexivity.
Defined.

(** ** /api/chat: what it stores and what it answers *)

Lemma stored_text_name (text : string) :
  stored_text (json_of_option (extract_name text)) = extract_name text.
Proof.
  destruct (extract_name text) as [name|] eqn:E; [|reflexivity].
  unfold stored_text. simpl.
  now rewrite (extracted_name_encodable _ _ E).
Qed.

Lemma bindable_name (text : string) :
  bindable (json_of_option (extract_name text)).
Proof.
  destruct (extract_name text) as [name|] eqn:E; [|exact I].
  simpl. now apply (extracted_name_encodable text).
Qed.

(** X6.  A chat message classified as a query leaves the table as it is.
    A message classified as a note is stored before the completion service
    is called, so whatever the service does, also when the request then
    ends with an error: when the storage takes the write, the text of the
    record can be encoded and a rowid is left, the table has exactly one
    more row, with the next id, [doc_type] "record", the extracted name as
    [identifier] and a payload that holds the name, the message and the
    time; in every other case the table is unchanged. *)
Theorem chat_table_effect (json_loads : string -> option json)
  (post : string -> string -> outcome json)
  (fields : list (string * json)) (user_msg time_iso : string) (e : event)
  (db : database) :
  get_default "message" (JStr "") fields = JStr user_msg ->
  let db' := snd (chat json_loads post (JObj fields) time_iso e db) in
  let record := chat_record user_msg time_iso in
  let stored :=
    storage_ok e = true /\ encodable (json_dumps record) = true
    /\ rowid_available db in
  (analyze user_msg = "query" -> db' = db)
  /\ (analyze user_msg = "store" ->
      (stored ->
       db' = mk_database
               (documents db
                  ++ [mk_row (next_id db) (Some "record")
                             (extract_name user_msg) (json_dumps record)
                             (now e)])
               (next_id db))
      /\ (~ stored -> db' = db)).
Proof.
  intros Hmsg db' record stored. subst db' record stored.
  unfold chat. rewrite Hmsg. split.
  - intros ->. simpl. now destruct (reply _ _ _ _).
  - intros ->. simpl. fold (chat_record user_msg time_iso). split.
    + intros [Hs [Henc Hrow]].
      rewrite add_document_accepted.
      * unfold with_document. rewrite stored_text_name.
        now destruct (reply _ _ _ _).
      * repeat split; trivial. apply bindable_name.
    + intros Hno. rewrite add_document_refused.
      * now destruct (reply _ _ _ _).
      * intros [Hs [_ [_ [Henc Hrow]]]]. apply Hno. now repeat split.
Qed.

Lemma chat_table_effect_witness :
  map Sqlite.identifier
      (documents (snd (chat (decoder_of []) answers_null (JObj note_zhang)
                            "2024-01-01T12:00:00" noon empty)))
  = [Some "张三迟"].
Proof.
  destruct (chat_table_effect (decoder_of []) answers_null note_zhang
              "记录张三迟到" "2024-01-01T12:00:00" noon empty eq_refl)
    as [_ Hstore].
  destruct (Hstore eq_refl) as [Hstored _].
  rewrite Hstored; [reflexivity|].
  repeat split; vm_compute; reflexivity.
Defined.



(** ** /api/import: an item that is not an object *)

Lemma import_items_stop (env : nat -> event)
  (dicts : list (list (string * json))) (other : json) (rest : list json) :
  is_dict other = false ->
  forall (i : nat) (acc : tally) (db : database),
    import_items env i (map JObj dicts ++ other :: rest) acc db
    = (Raise (no_attribute other "get"),
       snd (add_documents (import_calls env i dicts) db)).
Proof.
  intros Hother. induction dicts as [|it dicts IH]; intros i acc db.
  - simpl. now destruct other.
  - cbn [map app import_items import_calls add_documents call_event
         call_doc_type call_identifier call_data].
    pose proof (import_item_db (env i) it acc db) as Hdb.
    destruct (import_item (env i) it acc db) as [acc' db1].
    simpl in Hdb. rewrite IH, Hdb.
    destruct (add_document (env i) (get "doc_type" it)
                           (get "identifier" it) (data_dict_of it) db)
      as [out db2].
    simpl. now destruct (add_documents (import_calls env (S i) dicts) db2).
Qed.

(** X11.  When an item of the JSON array is not an object, the import
    stops there: the items before it were handed to [add_document] and what
    they inserted stays, the items after it are not looked at, and the
    answer is status 500 with the message of the AttributeError instead of
    the summary. *)
Theorem api_import_stops_at_non_object (req : request) (env : nat -> event)
  (db : database) (dicts : list (list (string * json))) (other : json)
  (rest : list json) :
  is_json req = true ->
  get_json req = Return (JArr (map JObj dicts ++ other :: rest)) ->
  is_dict other = false ->
  api_import req env db
  = (error_response 500
       ("'" ++ type_name other ++ "' object has no attribute 'get'"),
     snd (add_documents (import_calls env 0 dicts) db)).
Proof.
  intros Hjson Hbody Hother. unfold api_import.
  rewrite Hjson, Hbody.
  now rewrite (import_items_stop env dicts other rest Hother).
Qed.

Lemma api_import_stops_at_non_object_witness :
  api_import (json_request (JArr [JObj zhang; JStr "李四"; JObj zhang]))
             at_noon empty
  = (error_response 500 "'str' object has no attribute 'get'",
     snd (add_documents (import_calls at_noon 0 [zhang]) empty)).
Proof.
  apply (api_import_stops_at_non_object
           (json_request (JArr [JObj zhang; JStr "李四"; JObj zhang]))
           at_noon empty [zhang] (JStr "李四") [JObj zhang]);
    reflexivity.
Defined.

(** ** /api/import: a CSV file *)

Lemma lookup_In {K V : Type} (eqb : K -> K -> bool) (k : K) (v : V)
  (d : list (K * V)) :
  lookup eqb k d = Some v -> exists k', In (k', v) d /\ eqb k k' = true.
Proof.
  induction d as [|[k0 v0] d IH]; simpl; [discriminate|].
  destruct (eqb k k0) eqn:E.
  - intros H. injection H as <-. exists k0. split; [now left | exact E].
  - intros H. destruct (IH H) as [k' [Hin Hk]].
    exists k'. split; [now right | exact Hk].
Qed.

Lemma fill_missing_In (keys : list string) (d : csv_row)
  (k : option string) (v : json) :
  In (k, v) (fold_left (fun d key => dict_set key_eqb (Some key) JNull d)
                       keys d) ->
  v = JNull \/ In (k, v) d.
Proof.
  revert d. induction keys as [|key keys IH]; intros d; simpl.
  - now right.
  - intros H. destruct (IH _ H) as [Hv|Hin]; [now left|].
    apply (dict_set_In key_eqb key_eqb_eq) in Hin.
    destruct Hin as [[_ ->]|Hin]; [now left | now right].
Qed.

(** The values of a row of [csv.DictReader]: a text or [None] under a field
    name, a list under [None]. *)
Lemma dict_reader_row_values (fieldnames record : list string)
  (name : string) (v : json) :
  In (Some name, v) (dict_reader_row fieldnames record) ->
  v = JNull \/ exists s, v = JStr s.
Proof.
  unfold dict_reader_row, dict_of.
  assert (Hzip : forall k x,
             In (k, x) (fold_left
                          (fun d kv => dict_set key_eqb (fst kv) (snd kv) d)
                          (combine (map Some fieldnames) (map JStr record))
                          []) ->
             exists s, x = JStr s).
  { intros k x Hin.
    apply (dict_of_In_from key_eqb key_eqb_eq) in Hin.
    destruct Hin as [Hin|[]]. apply in_combine_r in Hin.
    apply in_map_iff in Hin. destruct Hin as [s [<- _]]. now exists s. }
  destruct (length fieldnames <? length record)%nat.
  - intros Hin. apply (dict_set_In key_eqb key_eqb_eq) in Hin.
    destruct Hin as [[Hk _]|Hin]; [discriminate|].
    right. now apply (Hzip (Some name)).
  - intros Hin. apply fill_missing_In in Hin.
    destruct Hin as [->|Hin]; [now left|].
    right. now apply (Hzip (Some name)).
Qed.

Lemma csv_cell_bindable (fieldnames record : list string) (name : string) :
  let row := dict_reader_row fieldnames record in
  let v := or_none (match lookup key_eqb (Some name) row with
                    | Some x => x
                    | None => JNull
                    end) in
  (forall s, cell name row = Some s -> encodable s = true) ->
  bindable v /\ stored_text v = cell name row.
Proof.
  cbv zeta. unfold cell.
  destruct (lookup key_eqb (Some name)
                   (dict_reader_row fieldnames record)) as [x|] eqn:E;
    [|now split].
  apply lookup_In in E. destruct E as [k' [Hin Hk]].
  apply key_eqb_eq in Hk. subst k'.
  apply dict_reader_row_values in Hin.
  destruct Hin as [-> | [s ->]]; [now split|].
  unfold or_none, given. simpl.
  destruct (s =? "")%string; [now split|].
  intros Henc. specialize (Henc s eq_refl).
  unfold stored_text. simpl. now rewrite Henc.
Qed.

(** X12.  A record that [csv.reader] yields is never refused for the number
    of its fields or for an empty cell: when the storage takes the write, a
    rowid is left and the texts to store can be encoded (as the texts of a
    file that was decoded from UTF-8 can), the row is inserted and counted
    as a success.  Its [doc_type] and [identifier] are the texts of the
    cells under these columns, NULL for an empty or missing cell, and its
    payload holds the other fields. *)
Theorem csv_record_is_inserted (fieldnames record : list string)
  (e : event) (acc : tally) (db : database) :
  let row := dict_reader_row fieldnames record in
  let payload :=
    json_of_csv
      (without_keys key_eqb [Some "doc_type"; Some "identifier"] row) in
  storage_ok e = true -> rowid_available db ->
  (forall s, cell "doc_type" row = Some s -> encodable s = true) ->
  (forall s, cell "identifier" row = Some s -> encodable s = true) ->
  encodable (json_dumps payload) = true ->
  import_row e row acc db
  = (mk_tally (succ acc + 1) (fail acc)
       (results acc
          ++ [JObj [("row", json_of_csv row); ("status", JStr "ok");
                    ("id", JNum (next_id db))]]),
     mk_database
       (documents db
          ++ [mk_row (next_id db) (cell "doc_type" row)
                     (cell "identifier" row) (json_dumps payload) (now e)])
       (next_id db)).
Proof.
  intros row payload Hs Hrow Htype Hident Henc. unfold import_row.
  destruct (csv_cell_bindable fieldnames record "doc_type" Htype)
    as [Bt Et].
  destruct (csv_cell_bindable fieldnames record "identifier" Hident)
    as [Bi Ei].
  fold row in Bt, Et, Bi, Ei. fold payload.
  rewrite add_document_accepted by (repeat split; trivial).
  unfold with_document. now rewrite Et, Ei.
Qed.

Lemma csv_record_is_inserted_witness :
  map Sqlite.doc_type
      (documents
         (snd (import_row noon
                 (dict_reader_row ["doc_type"; "name"] [""; "张三"; "x"])
                 (mk_tally 0 0 []) empty)))
  = [None].
Proof.
  rewrite (csv_record_is_inserted ["doc_type"; "name"] [""; "张三"; "x"]
             noon (mk_tally 0 0 []) empty eq_refl);
    [reflexivity | vm_compute; reflexivity | discriminate | discriminate
     | reflexivity].
Defined.

Lemma import_rows_tally (env : nat -> event) (rows : list csv_row) :
  forall (i : nat) (acc : tally) (db : database),
  exists t db' new_rows details,
    import_rows env i (map Return rows) acc db = (Return t, db')
    /\ documents db' = (documents db ++ new_rows)%list
    /\ succ t = succ acc + Z.of_nat (length new_rows)
    /\ fail t = fail acc
                + (Z.of_nat (length rows) - Z.of_nat (length new_rows))
    /\ results t = (results acc ++ details)%list
    /\ length details = length rows.
Proof.
  induction rows as [|row rows IH]; intros i acc db;
    cbn [map import_rows].
  - exists acc, db, [], []. rewrite !app_nil_r. simpl.
    repeat split; lia.
  - unfold import_row.
    match goal with
    | |- context [add_document (env i) ?dt ?idn ?payload db] =>
        destruct (add_document_cases (env i) dt idn payload db)
          as [[new_id [E _]] | E]; rewrite E; clear E
    end.
    + match goal with
      | |- context [import_rows env (S i) _ ?a ?d] =>
          destruct (IH (S i) a d)
            as [t [db' [new [details [Hrun [Hdocs [Hs [Hf [Hr Hl]]]]]]]]]
      end.
      cbn [succ fail results documents] in *.
      match type of Hdocs with
      | _ = ((_ ++ [?r]) ++ _)%list =>
          exists t, db', (r :: new)
      end.
      match type of Hr with
      | _ = ((_ ++ [?d]) ++ _)%list => exists (d :: details)
      end.
      split; [exact Hrun|]. cbn [length succ fail results documents] in *.
      split; [now rewrite Hdocs, <- app_assoc|].
      split; [lia|]. split; [lia|].
      split; [now rewrite Hr, <- app_assoc | now rewrite Hl].
    + match goal with
      | |- context [import_rows env (S i) _ ?a ?d] =>
          destruct (IH (S i) a d)
            as [t [db' [new [details [Hrun [Hdocs [Hs [Hf [Hr Hl]]]]]]]]]
      end.
      cbn [succ fail results documents] in *.
      exists t, db', new.
      match type of Hr with
      | _ = ((_ ++ [?d]) ++ _)%list => exists (d :: details)
      end.
      split; [exact Hrun|]. cbn [length succ fail results documents] in *.
      split; [exact Hdocs|].
      split; [lia|]. split; [lia|].
      split; [now rewrite Hr, <- app_assoc | now rewrite Hl].
Qed.

Lemma fill_missing_no_rest (keys : list string) (d : csv_row) :
  lookup key_eqb None
         (fold_left (fun d key => dict_set key_eqb (Some key) JNull d)
                    keys d)
  = lookup key_eqb None d.
Proof.
  revert d. induction keys as [|key keys IH]; intros d; simpl; trivial.
  rewrite IH. apply (lookup_dict_set_other key_eqb key_eqb_eq).
  discriminate.
Qed.

(** A record that is not longer than the header has no field under
    [None]. *)
Lemma short_record_sortable (fieldnames record : list string) :
  (length record <= length fieldnames)%nat ->
  sortable (dict_reader_row fieldnames record) = true.
Proof.
  intros Hlen. unfold sortable, has_key, dict_reader_row.
  destruct (Nat.ltb_spec (length fieldnames) (length record)); [lia|].
  rewrite fill_missing_no_rest. unfold dict_of.
  rewrite (lookup_fold_absent key_eqb key_eqb_eq); [reflexivity|].
  intros Hin. apply in_map_iff in Hin.
  destruct Hin as [[k v] [Hk Hin]]. simpl in Hk. subst k.
  apply in_combine_l in Hin. apply in_map_iff in Hin.
  destruct Hin as [x [Hx _]]. discriminate.
Qed.

(** The rows [csv.DictReader] makes of records that the reader yields. *)
Lemma dict_reader_steps (fieldnames : list string)
  (records : list (list string)) :
  flat_map (dict_reader_step fieldnames) (map Return records)
  = map Return
        (map (dict_reader_row fieldnames)
             (filter (fun record => negb (is_blank record)) records)).
Proof.
  induction records as [|record records IH]; [reflexivity|].
  cbn [map flat_map dict_reader_step filter].
  destruct (is_blank record); simpl; now rewrite IH.
Qed.

Lemma dict_reader_records (records : list (list string)) :
  dict_reader (map Return records)
  = map Return
        (map (dict_reader_row (hd [] records)) (data_records records)).
Proof.
  destruct records as [|fieldnames rest]; [reflexivity|].
  apply dict_reader_steps.
Qed.

Lemma rows_of_returns (rows : list csv_row) :
  rows_of (map Return rows) = rows.
Proof.
  unfold rows_of.
  induction rows as [|row rows IH]; simpl; [reflexivity | now rewrite IH].
Qed.

(** X13.  For an uploaded CSV file of which the reader refuses no record
    and in which no record has more fields than the header, the answer has
    status 200 and the summary: with N the number of records after the
    header that are not blank and K the number of rows the import added to
    the table, [success] is K, [fail] is N - K, and [details] has N
    entries.  A record whose insert fails does not stop the loop; an empty
    file and a file with only a header give 0 and 0. *)
Theorem api_import_csv_tally (req : request) (env : nat -> event)
  (db : database) (records : list (list string)) :
  is_json req = false ->
  lookup String.eqb "file" (files req)
  = Some (Return (map Return records)) ->
  Forall (fun record => (length record <= length (hd [] records))%nat)
         (tl records) ->
  exists t db' new_rows,
    api_import req env db = (summary_response t, db')
    /\ documents db' = (documents db ++ new_rows)%list
    /\ succ t = Z.of_nat (length new_rows)
    /\ fail t = Z.of_nat (length (data_records records))
                - Z.of_nat (length new_rows)
    /\ length (results t) = length (data_records records).
Proof.
  intros Hjson Hfile Hshort. unfold api_import. rewrite Hjson, Hfile.
  cbv zeta. rewrite dict_reader_records, rows_of_returns.
  destruct (import_rows_tally env
              (map (dict_reader_row (hd [] records)) (data_records records))
              0%nat (mk_tally 0 0 []) db)
    as [t [db' [new [details [Hrun [Hdocs [Hs [Hf [Hr Hl]]]]]]]]].
  rewrite Hrun.
  assert (Hsort : forallb sortable
                    (map (dict_reader_row (hd [] records))
                         (data_records records)) = true).
  { apply forallb_forall. intros row Hrow.
    apply in_map_iff in Hrow.
    destruct Hrow as [record [<- Hrec]]. apply filter_In in Hrec.
    apply short_record_sortable.
    rewrite Forall_forall in Hshort. now apply Hshort. }
  rewrite Hsort. exists t, db', new. rewrite length_map in Hf, Hl.
  simpl in *. repeat split; trivial. now rewrite Hr.
Qed.

Lemma api_import_csv_tally_witness :
  exists t db',
    api_import (csv_request three_line_csv) at_noon empty
    = (summary_response t, db')
    /\ succ t = 2 /\ fail t = 0 /\ length (results t) = 2%nat.
Proof.
  destruct (api_import_csv_tally (csv_request three_line_csv) at_noon empty
              three_line_csv eq_refl eq_refl)
    as [t [db' [rows [Hrun [_ [_ [_ Hlen]]]]]]].
  - repeat constructor.
  - exists t, db'. split; [exact Hrun|].
    vm_compute in Hrun. injection Hrun as Hs Hf _ _.
    repeat split; try (symmetry; assumption). exact Hlen.
Defined.

(** ** /api/import: a record the CSV reader refuses *)

Lemma import_rows_stop (env : nat -> event) (rows : list csv_row)
  (exc : string) (more : list (outcome csv_row)) :
  forall (i : nat) (acc : tally) (db : database),
    import_rows env i (map Return rows ++ Raise exc :: more) acc db
    = (Raise exc, snd (import_rows env i (map Return rows) acc db)).
Proof.
  induction rows as [|row rows IH]; intros i acc db;
    cbn [map app import_rows]; [reflexivity|].
  destruct (import_row (env i) row acc db) as [acc' db']. apply IH.
Qed.

(** X15.  The CSV file is read while the loop runs.  When [csv.reader]
    refuses a record (a field over its size limit, a line break inside an
    unquoted field), the import stops there: the answer is status 500 with
    the message of the reader's error instead of the summary, and the table
    is the one that importing the file cut before that record leaves: the
    rows of the records before it stay, the records after it are not
    read. *)
Theorem api_import_stops_at_refused_record (req : request)
  (env : nat -> event) (db : database) (header : list string)
  (records : list (list string)) (exc : string)
  (rest : list (outcome (list string))) :
  is_json req = false ->
  lookup String.eqb "file" (files req)
  = Some (Return (Return header
                  :: (map Return records ++ Raise exc :: rest)%list)) ->
  api_import req env db
  = (error_response 500 exc,
     snd (api_import (csv_request (header :: records)) env db)).
Proof.
  intros Hjson Hfile. unfold api_import at 1. rewrite Hjson, Hfile.
  cbv zeta. cbn [dict_reader]. rewrite flat_map_app, dict_reader_steps.
  cbn [flat_map dict_reader_step app].
  rewrite import_rows_stop. f_equal.
  unfold api_import, csv_request.
  cbn [is_json files lookup String.eqb Ascii.eqb Bool.eqb map dict_reader].
  rewrite dict_reader_steps.
  match goal with
  | |- context [import_rows env 0 (map Return ?rows) ?acc db] =>
      destruct (import_rows_tally env rows 0%nat acc db)
        as [t [db' [new [details [Hrun _]]]]]
  end.
  rewrite Hrun. cbn [snd].
  now destruct (forallb sortable _).
Qed.

Lemma api_import_stops_at_refused_record_witness :
  let file :=
    [Return ["doc_type"; "name"]; Return ["student"; "张三"];
     Raise "field larger than field limit (131072)";
     Return ["student"; "李四"]] in
  let run :=
    api_import (mk_request false (Raise "415 Unsupported Media Type")
                           [("file", Return file)])
               at_noon empty in
  fst run = error_response 500 "field larger than field limit (131072)"
  /\ map id (documents (snd run)) = [1].
Proof.
  cbv zeta.
  rewrite (api_import_stops_at_refused_record
             (mk_request false (Raise "415 Unsupported Media Type")
                         [("file",
                           Return [Return ["doc_type"; "name"];
                                   Return ["student"; "张三"];
                                   Raise "field larger than field limit (131072)";
                                   Return ["student"; "李四"]])])
             at_noon empty ["doc_type"; "name"] [["student"; "张三"]]
             "field larger than field limit (131072)"
             [Return ["student"; "李四"]] eq_refl eq_refl).
  split; reflexivity.
Defined.

(** ** A stored note is found again *)

Lemma utf8_split_app_clean (a b : string) :
  fst (utf8_split b) = ""%string ->
  utf8_split (a ++ b)
  = (fst (utf8_split a), (snd (utf8_split a) ++ snd (utf8_split b))%list).
Proof.
  intros Hb. induction a as [|c a IH]; simpl.
  - destruct (utf8_split b) as [k chars]. simpl in *. now subst k.
  - rewrite IH. destruct (utf8_split a) as [k chars]. simpl.
    destruct (is_continuation c); [reflexivity|].
    destruct (is_lead c); [reflexivity|].
    simpl. now rewrite app_assoc.
Qed.

Lemma utf8_chars_app_clean (a b : string) :
  fst (utf8_split b) = ""%string ->
  utf8_chars (a ++ b) = (utf8_chars a ++ utf8_chars b)%list.
Proof.
  intros Hb. unfold utf8_chars. rewrite utf8_split_app_clean by exact Hb.
  destruct (utf8_split a) as [k chars], (utf8_split b) as [k' chars'].
  simpl in *. subst k'. simpl. now rewrite app_assoc.
Qed.

Lemma utf8_split_starts_clean (b : ascii) (s : string) :
  is_continuation b = false -> fst (utf8_split (String b s)) = ""%string.
Proof.
  intros Hb. simpl. destruct (utf8_split s) as [k chars]. rewrite Hb.
  now destruct (is_lead b).
Qed.

Lemma escape_char_high (b : ascii) :
  (128 <= N_of_ascii b)%N -> escape_char b = String b "".
Proof.
  intros H. unfold escape_char.
  repeat match goal with
         | |- context [(N_of_ascii b =? ?n)%N] =>
             destruct (N.eqb_spec (N_of_ascii b) n); [lia|]
         end.
  destruct (N.ltb_spec (N_of_ascii b) 32); [lia | reflexivity].
Qed.

Lemma escape_three_bytes (chars : list string) :
  Forall three_bytes chars -> escape (flatten chars) = flatten chars.
Proof.
  induction 1 as [|ch chars [b0 [b1 [b2 [-> [H0 [H1 H2]]]]]] _ IH];
    [reflexivity|].
  unfold is_lead in H0. unfold is_continuation in H1, H2.
  apply N.leb_le in H0.
  apply andb_true_iff in H1, H2. destruct H1 as [H1 _], H2 as [H2 _].
  apply N.leb_le in H1, H2.
  cbn [flatten append escape].
  rewrite !escape_char_high by lia. simpl. now rewrite IH.
Qed.

(** A payload that holds a name of three-byte characters under
    "student_name" passes the search for this name. *)
Lemma named_payload_matches (chars : list string)
  (rest : list (string * json)) :
  chars <> [] -> Forall three_bytes chars ->
  like (json_dumps (JObj (("student_name", JStr (flatten chars)) :: rest)))
       ("%" ++ flatten chars ++ "%") = true.
Proof.
  intros Hne Hthree.
  assert (Hsplit : utf8_split (flatten chars) = (""%string, chars))
    by now apply utf8_chars_three_bytes.
  pose proof (three_bytes_chars _ Hthree) as Hname.
  pose proof (c_text_three_bytes _ Hthree) as Hnul.
  apply like_occurs;
    [rewrite Hname; now apply three_bytes_wildcard_free | exact Hnul |].
  rewrite Hname.
  assert (Htext : exists pre post,
             c_text pre = pre
             /\ json_dumps (JObj (("student_name", JStr (flatten chars))
                                  :: rest))
                = (pre ++ flatten chars ++ String "034"%char post)%string).
  { cbn [json_dumps map fst snd].
    assert (Hkey : c_text ("{" ++ quote "student_name" ++ ": " ++ dquote)
                   = ("{" ++ quote "student_name" ++ ": " ++ dquote)%string)
      by reflexivity.
    set (key := quote "student_name") in *.
    unfold quote. rewrite (escape_three_bytes chars Hthree).
    exists ("{" ++ key ++ ": " ++ dquote)%string.
    destruct (map _ rest) as [|p parts].
    - exists "}"%string. split; [exact Hkey|]. cbn [join].
      rewrite !append_assoc. reflexivity.
    - exists (", " ++ join ", " (p :: parts) ++ "}")%string.
      split; [exact Hkey|].
      cbn [join]. rewrite !append_assoc. reflexivity. }
  destruct Htext as [pre [post [Hpre ->]]].
  rewrite (c_text_app pre _ Hpre), (c_text_app (flatten chars) _ Hnul).
  cbn [c_text N_of_ascii N.eqb].
  change (N_of_ascii "034" =? 0)%N with false. cbv iota.
  exists (utf8_chars pre), chars,
    (utf8_chars (String "034"%char (c_text post))).
  split; [|now apply run_three_bytes].
  rewrite utf8_chars_app_clean.
  - f_equal. rewrite utf8_chars_app_clean by now apply utf8_split_starts_clean.
    now rewrite Hname.
  - rewrite utf8_split_app_clean by now apply utf8_split_starts_clean.
    now rewrite Hsplit.
Qed.

(** X14.  A note that [chat] stored for a name is found by the search for
    that name.  When a message is classified as a note, a name is extracted
    from it, the storage takes the write, the text of the record can be
    encoded and a rowid is left, then a following [query_documents] with
    this name as [search_text] and a limit of 64 bits returns the new
    document (of [doc_type] "record", with the name as [identifier]),
    provided the limit is negative or not below the number of rows that
    match.  This rests on [json.dumps] being called with
    [ensure_ascii=False], which keeps the characters of the name in the
    payload. *)
Theorem stored_note_is_found (json_loads loads : string -> option json)
  (post : string -> string -> outcome json)
  (fields : list (string * json)) (user_msg name time_iso : string)
  (e : event) (db : database) (limit : Z) :
  get_default "message" (JStr "") fields = JStr user_msg ->
  analyze user_msg = "store" ->
  extract_name user_msg = Some name ->
  storage_ok e = true ->
  encodable (json_dumps (chat_record user_msg time_iso)) = true ->
  rowid_available db ->
  min_int64 <= limit <= max_int64 ->
  let db' := snd (chat loads post (JObj fields) time_iso e db) in
  limit < 0
  \/ Z.of_nat (length (wanted_rows (Some name) None db')) <= limit ->
  exists d,
    In d (query_documents json_loads (Some name) None limit db')
    /\ doc_id d = next_id db
    /\ doc_doc_type d = Some "record"
    /\ doc_identifier d = Some name.
Proof.
  intros Hmsg Hstore Hname Hs Henc Hrow _.
  destruct (extracted_name_chars _ _ Hname)
    as [chars [Hne [Hthree [Hflat _]]]].
  assert (Hgiven : given (Some name) = Some name).
  { rewrite Hflat.
    destruct Hthree as [|ch chars [b0 [b1 [b2 [-> _]]]] _];
      [now elim Hne | reflexivity]. }
  assert (Hdb : snd (chat loads post (JObj fields) time_iso e db)
                = mk_database
                    (documents db
                       ++ [mk_row (next_id db) (Some "record")
                                  (extract_name user_msg)
                                  (json_dumps (chat_record user_msg
                                                           time_iso))
                                  (now e)])
                    (next_id db)).
  { unfold chat. rewrite Hmsg, Hstore. simpl.
    fold (chat_record user_msg time_iso).
    rewrite add_document_accepted
      by (repeat split; trivial; apply bindable_name).
    unfold with_document. rewrite stored_text_name.
    now destruct (reply _ _ _ _). }
  rewrite Hname in Hdb. cbv zeta. rewrite Hdb. clear Hdb.
  set (r := mk_row (next_id db) (Some "record") (Some name) _ (now e)).
  intros Hlimit. exists (build_document json_loads r).
  split; [|now repeat split].
  unfold query_documents. apply in_map.
  unfold wanted_rows in Hlimit. rewrite Hgiven in *.
  change (given None) with (@None string) in *.
  apply select_complete; [exact Hlimit | |].
  - cbn [documents]. apply in_or_app. right. now left.
  - subst r. unfold where_clause. cbn [data andb].
    unfold chat_record. rewrite Hname. cbn [json_of_option].
    rewrite Hflat. now apply named_payload_matches.
Qed.

Lemma stored_note_is_found_witness :
  exists d,
    In d (query_documents (decoder_of []) (Some "张三迟") None 20
            (snd (chat (decoder_of []) timed_out (JObj note_zhang)
                       "2024-01-01T12:00:00" noon empty)))
    /\ doc_id d = 1.
Proof.
  destruct (stored_note_is_found (decoder_of []) (decoder_of []) timed_out
              note_zhang "记录张三迟到" "张三迟" "2024-01-01T12:00:00" noon
              empty 20 eq_refl eq_refl eq_refl eq_refl eq_refl)
    as [d [Hin [Hid _]]].
  - vm_compute. reflexivity.
  - vm_compute. split; discriminate.
  - right. vm_compute. discriminate.
  - exists d. split; [exact Hin | exact Hid].
Defined.

(** ** /api/import: a JSON array of objects *)

Lemma import_items_run (env : nat -> event)
  (dicts : list (list (string * json))) :
  forall (i : nat) (acc : tally) (db : database),
    import_items env i (map JObj dicts) acc db
    = (Return
         (mk_tally
            (succ acc
             + successes (fst (add_documents (import_calls env i dicts) db)))
            (fail acc
             + failures (fst (add_documents (import_calls env i dicts) db)))
            (results acc
               ++ details_of dicts
                    (fst (add_documents (import_calls env i dicts) db)))),
       snd (add_documents (import_calls env i dicts) db)).
Proof.
  induction dicts as [|it dicts IH]; intros i acc db.
  - cbn. rewrite !Z.add_0_r, app_nil_r. now destruct acc.
  - cbn [map import_items import_calls add_documents call_event
         call_doc_type call_identifier call_data].
    unfold import_item.
    destruct (add_document (env i) (get "doc_type" it) (get "identifier" it)
                           (data_dict_of it) db) as [[ok new_id] db1].
    destruct ok; rewrite IH;
      destruct (add_documents (import_calls env (S i) dicts) db1)
        as [outs db2];
      unfold successes, failures, details_of, detail_of;
      cbn [fst snd succ fail results filter negb combine map length];
      rewrite <- app_assoc; cbn [app];
      rewrite ?Nat2Z.inj_succ; do 2 f_equal; f_equal; lia.
Qed.

Lemma add_documents_length (calls : list call) :
  forall db, length (fst (add_documents calls db)) = length calls.
Proof.
  induction calls as [|c calls IH]; intros db; simpl; trivial.
  destruct (add_document _ _ _ _ db) as [out db1].
  specialize (IH db1). destruct (add_documents calls db1). simpl in *.
  now rewrite IH.
Qed.

Lemma import_calls_length (env : nat -> event)
  (dicts : list (list (string * json))) :
  forall i, length (import_calls env i dicts) = length dicts.
Proof.
  induction dicts as [|it dicts IH]; intros i; simpl; trivial.
  now rewrite IH.
Qed.

(** X16.  The tally of a JSON import.  For a POST whose body is a JSON
    array of N objects the loop calls [add_document] once per item, in
    order, each on the table the earlier calls left, and an item whose
    insert fails does not stop it.  The response has status 200;
    [summary.success] is the number of calls that returned [True], [fail]
    the number that returned [False], and the two add up to N; [details]
    has one entry per item, in order, made from that item and the result
    of its own call: the item with status "ok" and the id the call
    returned, or the item with status "fail".  The table after the request
    is the one these calls leave; it has one new row per success, and the
    id of an "ok" entry is the id of the row that holds that item's
    data. *)
Theorem api_import_json_tally (req : request) (env : nat -> event)
  (db : database) (dicts : list (list (string * json))) :
  is_json req = true ->
  get_json req = Return (JArr (map JObj dicts)) ->
  let run := add_documents (import_calls env 0 dicts) db in
  let outs := fst run in
  api_import req env db
  = (summary_response
       (mk_tally (successes outs) (failures outs) (details_of dicts outs)),
     snd run)
  /\ length outs = length dicts
  /\ length (details_of dicts outs) = length dicts
  /\ successes outs + failures outs = Z.of_nat (length dicts)
  /\ exists new_rows,
       documents (snd run) = (documents db ++ new_rows)%list
       /\ successes outs = Z.of_nat (length new_rows)
       /\ Forall2 (imported new_rows) dicts (details_of dicts outs).
Proof.
  intros Hjson Hbody run outs. subst outs run.
  pose proof (import_items_run env dicts 0%nat (mk_tally 0 0 []) db) as Hrun.
  cbn [succ fail results app] in Hrun. rewrite !Z.add_0_l in Hrun.
  destruct (import_items_tally env dicts 0%nat (mk_tally 0 0 []) db)
    as [t [db' [rows [details [Ht [Hdocs [Hs [Hf [Hr Hd]]]]]]]]].
  rewrite Hrun in Ht. injection Ht as Ht Hdb. subst t db'.
  cbn [succ fail results app] in Hs, Hf, Hr.
  assert (Hlen : length (fst (add_documents (import_calls env 0 dicts) db))
                 = length dicts)
    by now rewrite add_documents_length, import_calls_length.
  split.
  { unfold api_import. now rewrite Hjson, Hbody, Hrun. }
  split; [exact Hlen|].
  split.
  { rewrite Hr. symmetry. exact (Forall2_length Hd). }
  split; [lia|].
  exists rows. split; [exact Hdocs|]. split; [lia|].
  now rewrite Hr.
Qed.

Lemma api_import_json_tally_witness :
  api_import (json_request (JArr [JObj zhang; JObj li])) at_noon empty
  = (summary_response
       (mk_tally 1 1
          [JObj [("item", JObj zhang); ("status", JStr "ok");
                 ("id", JNum 1)];
           JObj [("item", JObj li); ("status", JStr "fail")]]),
     snd (add_documents (import_calls at_noon 0 [zhang; li]) empty)).
Proof.
  destruct (api_import_json_tally
              (json_request (JArr [JObj zhang; JObj li])) at_noon empty
              [zhang; li] eq_refl eq_refl) as [Hrun _].
  rewrite Hrun. reflexivity.
Defined.

(** ** /api/import: the status of the answer *)

(** X17.  The statuses [api_import] answers with.  A POST whose body is
    JSON but not an array, or which is not JSON and has no [file] field,
    is answered with status 400 and the error envelope, and the table is
    left as it was.  Every other request is answered with the summary
    (status 200) or, when an exception is raised while it is handled, with
    status 500 and the error envelope: status 400 is given for that shape
    of request only. *)
Theorem api_import_shape_violation (req : request) (env : nat -> event)
  (db : database) :
  if shape_violation req then
    snd (api_import req env db) = db
    /\ exists message,
         fst (api_import req env db) = error_response 400 message
  else
    (exists t, fst (api_import req env db) = summary_response t)
    \/ (exists message,
          fst (api_import req env db) = error_response 500 message).
Proof.
  unfold shape_violation, api_import.
  destruct (is_json req).
  - destruct (get_json req) as [v|e].
    + destruct v as [| | | |items|]; simpl;
        try (split; [reflexivity | now eexists]).
      destruct (import_items env 0 items (mk_tally 0 0 []) db)
        as [[t|e] db']; simpl; [left | right]; now eexists.
    + right. now eexists.
  - destruct (lookup String.eqb "file" (files req)) as [[records|e]|].
    + destruct (import_rows env 0 (dict_reader records) (mk_tally 0 0 []) db)
        as [[t|e] db']; simpl; [|right; now eexists].
      destruct (forallb sortable (rows_of (dict_reader records))); simpl;
        [left | right]; now eexists.
    + right. now eexists.
    + split; [reflexivity | now eexists].
Qed.
